(** * FaceExtractor: the MTCNN cascade controller

    A shallow embedding of [FaceExtractor/MTCNN/MTCNN.py] (class [MTCNN]:
    [run_first_stage], [normalize], [forward]) and the properties of its
    cascade control.

    Conventions of the embedding.
    - Python ints are [Z].  A Python float is the rational it denotes ([Q]),
      or an infinity or NaN ([float]) where one can arise.
    - Rounding to binary64 ([round64]: 53 bits, ties to even, subnormals
      below [2^-1022], overflow to an infinity at [2^1024]) is modelled where
      it decides what the code does next: the scale pyramid (lines 67-74) and
      the sizes of the resized images (line 28).  There [factor **
      factor_count] is taken as correctly rounded.  The arithmetic on pixel
      values, scores and coordinates ([normalize], the landmark points) is
      exact: its rounding error is not modelled.
    - A torch tensor is a shape together with its flat storage; a 2-D numpy
      array is the list of its rows.
    - Python exceptions are values of [exn]; code that may raise lives in the
      monad [M], which also records, in order, every call made to a
      collaborator (the three networks, [box_utils], [first_stage], numpy and
      torch helpers).
    - The collaborators are not part of [MTCNN.py]: the networks are fields of
      the object, the imported functions are the fields of [Env].  They are
      taken as total functions, and [forward] is proved for all of them; the
      one exception is [torchvision]'s [to_pil_image], which raises on a
      tensor that is not 2-D or 3-D.
    - Moves between devices and between tensors and arrays ([.to], [.cpu],
      [.data.numpy()], [torch.FloatTensor]) change no value and are left
      out. *)

From Stdlib Require Import String ZArith QArith Qround Qpower Qabs List Bool Lia Lqa.
From Stdlib Require Import Sorting.Sorted.
Import ListNotations.

Local Open Scope Q_scope.

(** ** Exceptions and the cascade monad

    [NeverReturns] is no exception of Python: it stands for a call that does
    not return, the loop of lines 71-74 started on an infinite
    [min_length]. *)

Inductive exn : Type :=
| AssertionError (msg : string)
| ValueError (msg : string)
| IndexError
| ZeroDivisionError
| OverflowError (msg : string)
| NeverReturns.

Inductive result (A : Type) : Type :=
| Ok (a : A)
| Raise (e : exn).
Arguments Ok {A} a.
Arguments Raise {A} e.

(** ** Binary64 arithmetic *)

(** [floor (log2 x)], for a positive [x]. *)
Definition floor_log2 (x : Q) : Z :=
  let g := (Z.log2 (Qnum x) - Z.log2 (Z.pos (Qden x)))%Z in
  if Qle_bool (2 ^ g) x then g else (g - 1)%Z.

(** To the nearest integer, halves to the even neighbour. *)
Definition rne (y : Q) : Z :=
  let f := Qfloor y in
  match Qcompare (y - inject_Z f) (1 # 2) with
  | Lt => f
  | Gt => (f + 1)%Z
  | Eq => if Z.even f then f else (f + 1)%Z
  end.

(** The exponent of the last place of the binary64 numbers around [x]: 53
    bits of precision, and nothing finer than [2^-1074]. *)
Definition ulp_exponent (x : Q) : Z :=
  Z.max (floor_log2 (Qabs x) - 52) (-1074).

(** The binary64 number nearest to [x], before any overflow. *)
Definition round64 (x : Q) : Q :=
  if Qeq_bool x 0 then 0
  else
    let e := ulp_exponent x in
    inject_Z (rne (x / 2 ^ e)) * 2 ^ e.

(** Half the distance, relative to 1, between neighbouring binary64
    numbers. *)
Definition eps64 : Q := 2 ^ (-53).

(** A Python float. *)
Inductive float : Type :=
| Finite (x : Q)
| Infinity (negative : bool)
| NaN.

(** The float an exact result is rounded to. *)
Definition fl (x : Q) : float :=
  let r := round64 x in
  if Qle_bool (2 ^ 1024) (Qabs r) then Infinity (negb (Qle_bool 0 r))
  else Finite r.

(** [a * b] on floats. *)
Definition fmul (a b : float) : float :=
  match a, b with
  | Finite x, Finite y => fl (x * y)
  | NaN, _ | _, NaN => NaN
  | Infinity s, Finite y | Finite y, Infinity s =>
      if Qeq_bool y 0 then NaN else Infinity (xorb s (negb (Qle_bool 0 y)))
  | Infinity s, Infinity t => Infinity (xorb s t)
  end.

(** The float an int is converted to when it meets a float; the sizes of a
    tensor are far below the [2^1024] at which Python refuses. *)
Definition of_int (z : Z) : float := fl (inject_Z z).

(** ** The scale pyramid ([forward], lines 55-74) *)

Definition min_detection_size : Q := 12.

(** The float literal [0.707]. *)
Definition factor : Q := round64 0.707.

(** [m*factor**factor_count], line 72. *)
Definition pyramid_scale (m : Q) (factor_count : nat) : Q :=
  round64 (m * round64 (factor ^ Z.of_nat factor_count)).

(** The [while min_length > min_detection_size] loop, entered with a finite
    [min_length]; every later [min_length] and every scale is then finite
    too.  [fuel] bounds the number of iterations; [None] means the bound was
    hit. *)
Fixpoint scales_loop (fuel : nat) (m min_length : Q) (factor_count : nat)
  (scales : list Q) : option (list Q) :=
  if Qlt_le_dec min_detection_size min_length then
    match fuel with
    | O => None
    | S fuel' =>
        scales_loop fuel' m (round64 (min_length * factor)) (S factor_count)
          (scales ++ [pyramid_scale m factor_count])
    end
  else Some scales.

(** [min_length] after [k] turns of the loop entered with [x]. *)
Fixpoint min_length_at (x : Q) (k : nat) : Q :=
  match k with
  | O => x
  | S k' => round64 (min_length_at x k' * factor)
  end.

(** ** Tensors and arrays *)

(** A torch tensor: its shape and its elements in row-major order. *)
Record tensor : Type := mkTensor { shape : list Z; data : list Q }.

(** A 2-D numpy array, as the list of its rows. *)
Definition ndarray : Type := list (list Q).

(** A PIL image is only handed from [to_pil_image] to [get_image_boxes]. *)
Definition pil_image : Type := tensor.

Definition ndim (t : tensor) : Z := Z.of_nat (length (shape t)).

(** [t.unsqueeze(0)] *)
Definition unsqueeze0 (t : tensor) : tensor := mkTensor (1%Z :: shape t) (data t).

(** [t.size(0)] *)
Definition size0 (t : tensor) : result Z :=
  match shape t with
  | d :: _ => Ok d
  | [] => Raise IndexError
  end.

(** [a, b = xs] *)
Definition unpack2 {A : Type} (xs : list A) : result (A * A) :=
  match xs with
  | [a; b] => Ok (a, b)
  | [] | [_] => Raise (ValueError "not enough values to unpack")
  | _ => Raise (ValueError "too many values to unpack")
  end.

(** [t.numpy()[0, 1, :, :]] on a 4-D tensor. *)
Definition index01 (t : tensor) : result tensor :=
  match shape t with
  | [n; c; h; w] =>
      if ((1 <=? n) && (2 <=? c))%Z then
        let hw := Z.to_nat (h * w) in
        Ok (mkTensor [h; w] (firstn hw (skipn hw (data t))))
      else Raise IndexError
  | _ => Raise IndexError
  end.

(** [a[:, lo:hi]] and [a[:, lo:]]: slices clip, they never raise. *)
Definition cols (lo hi : nat) (a : ndarray) : ndarray :=
  map (fun row => firstn (hi - lo) (skipn lo row)) a.
Definition cols_from (lo : nat) (a : ndarray) : ndarray :=
  map (fun row => skipn lo row) a.

(** [a[:, j]] *)
Fixpoint col (j : nat) (a : ndarray) : result (list Q) :=
  match a with
  | [] => Ok []
  | row :: rest =>
      match nth_error row j with
      | None => Raise IndexError
      | Some x =>
          match col j rest with
          | Ok xs => Ok (x :: xs)
          | Raise e => Raise e
          end
      end
  end.

(** [a[keep]] for a sequence of row indices. *)
Fixpoint take (a : ndarray) (keep : list nat) : result ndarray :=
  match keep with
  | [] => Ok []
  | k :: ks =>
      match nth_error a k with
      | None => Raise IndexError
      | Some row =>
          match take a ks with
          | Ok rows => Ok (row :: rows)
          | Raise e => Raise e
          end
      end
  end.

Definition Qgtb (x y : Q) : bool := negb (Qle_bool x y).

(** [np.where(v > threshold)[0]], counting positions from [i]. *)
Fixpoint where_gt (v : list Q) (threshold : Q) (i : nat) : list nat :=
  match v with
  | [] => []
  | x :: rest =>
      if Qgtb x threshold then i :: where_gt rest threshold (S i)
      else where_gt rest threshold (S i)
  end.

Definition set_nth (j : nat) (x : Q) (row : list Q) : result (list Q) :=
  if (j <? length row)%nat then Ok (firstn j row ++ x :: skipn (S j) row)
  else Raise IndexError.

(** [a[:, j] = v] *)
Fixpoint set_col (j : nat) (a : ndarray) (v : list Q) : result ndarray :=
  match a, v with
  | [], [] => Ok []
  | row :: rest, x :: xs =>
      match set_nth j x row with
      | Raise e => Raise e
      | Ok row' =>
          match set_col j rest xs with
          | Ok rows => Ok (row' :: rows)
          | Raise e => Raise e
          end
      end
  | _, _ => Raise (ValueError "could not broadcast input array")
  end.

(** [np.round]: to the nearest integer, halves to the even neighbour. *)
Definition np_round (x : Q) : Q :=
  let f := Qfloor x in
  let r := x - inject_Z f in
  match r ?= 1 # 2 with
  | Lt => inject_Z f
  | Gt => inject_Z (f + 1)
  | Eq => if Z.even f then inject_Z f else inject_Z (f + 1)
  end.

(** [a[:, 0:4] = np.round(a[:, 0:4])] *)
Definition round_cols04 (a : ndarray) : ndarray :=
  map (fun row => map np_round (firstn 4 row) ++ skipn 4 row) a.

(** The list comprehension [[i for i in xs if i is not None]]. *)
Fixpoint not_none {A : Type} (xs : list (option A)) : list A :=
  match xs with
  | [] => []
  | None :: rest => not_none rest
  | Some x :: rest => x :: not_none rest
  end.

(** ** Collaborators *)

(** Everything [MTCNN.py] imports and calls. *)
Record Env : Type := mkEnv {
  F_interpolate : tensor -> Z * Z -> string -> tensor;
  to_pil_image : tensor -> pil_image;
  _generate_bboxes : tensor -> tensor -> Q -> Q -> ndarray;
  nms : ndarray -> Q -> string -> list nat;
  calibrate_box : ndarray -> ndarray -> ndarray;
  convert_to_square : ndarray -> ndarray;
  get_image_boxes : ndarray -> pil_image -> Z -> list tensor
}.

(** Modelled from the spec: the default of the [mode] argument of
    [box_utils.nms], which [MTCNN.py] relies on when it passes no mode
    (spec 4.3: a mode flag "union" or "min", default "union"). *)
Definition nms_default_mode : string := "union".

(** The object state set up by [__init__]. *)
Record MTCNN : Type := mkMTCNN {
  min_face_size : Q;
  thresholds : Q * Q * Q;
  nms_thresholds : Q * Q * Q;
  pnet : tensor -> tensor * tensor;
  rnet : list tensor -> ndarray * ndarray;
  onet : list tensor -> ndarray * ndarray * ndarray
}.

(** [__init__] with its default arguments. *)
Definition MTCNN_init pnet rnet onet : MTCNN :=
  mkMTCNN 20.0 (0.6, 0.7, 0.8) (0.7, 0.7, 0.7) pnet rnet onet.

Definition item0 (t : Q * Q * Q) : Q := fst (fst t).
Definition item1 (t : Q * Q * Q) : Q := snd (fst t).
Definition item2 (t : Q * Q * Q) : Q := snd t.

(** The calls the cascade makes, with the arguments that matter. *)
Inductive event : Type :=
| Interpolate (size : Z * Z) (mode : string)
| PNet (image : tensor)
| GenerateBboxes (scale threshold : Q)
| Nms (boxes : ndarray) (overlap_threshold : Q) (mode : string)
| Vstack (arrays : nat)
| CalibrateBox (boxes offsets : ndarray)
| ConvertToSquare (boxes : ndarray)
| Round (boxes : ndarray)
| ToPilImage
| GetImageBoxes (boxes : ndarray) (size : Z)
| RNet (crops : nat)
| ONet (crops : nat)
| Where (probs : list Q) (threshold : Q).

Definition M (A : Type) : Type := list event -> result A * list event.

Definition ret {A : Type} (a : A) : M A := fun log => (Ok a, log).
Definition raise {A : Type} (e : exn) : M A := fun log => (Raise e, log).
Definition lift {A : Type} (r : result A) : M A := fun log => (r, log).
Definition bind {A B : Type} (m : M A) (f : A -> M B) : M B :=
  fun log =>
    match m log with
    | (Ok a, log') => f a log'
    | (Raise e, log') => (Raise e, log')
    end.
Definition emit (ev : event) : M unit := fun log => (Ok tt, log ++ [ev]).

Declare Scope cascade_scope.
Delimit Scope cascade_scope with cascade.
Notation "x <- c ;; k" := (bind c (fun x => k))
  (at level 61, c at next level, right associativity) : cascade_scope.
Notation "' p <- c ;; k" := (bind c (fun x => let p := x in k))
  (at level 61, p pattern, c at next level, right associativity) : cascade_scope.
Notation "c ;;; k" := (bind c (fun _ => k))
  (at level 61, right associativity) : cascade_scope.
Local Open Scope cascade_scope.

Fixpoint mapM {A B : Type} (f : A -> M B) (xs : list A) : M (list B) :=
  match xs with
  | [] => ret []
  | x :: rest =>
      y <- f x ;;
      ys <- mapM f rest ;;
      ret (y :: ys)
  end.

(** [assert cond, msg] *)
Definition assert (cond : bool) (msg : string) : M unit :=
  if cond then ret tt else raise (AssertionError msg).

(** [np.vstack]: refuses an empty sequence of arrays. *)
Definition np_vstack (arrays : list ndarray) : M ndarray :=
  emit (Vstack (length arrays)) ;;;
  match arrays with
  | [] => raise (ValueError "need at least one array to concatenate")
  | _ => ret (concat arrays)
  end.

(** ** class MTCNN *)

(** Pixel-wise body of [normalize]. *)
Definition normalize_pixel (p : Q) : Q := ((p * 255) - 127.5) * 0.0078125.

(** [MTCNN.normalize] *)
Definition normalize (self : MTCNN) (image_01 : tensor) : tensor :=
  mkTensor (shape image_01) (map normalize_pixel (data image_01)).

(** Enough iterations for the [while] loop started at [min_length]. *)
Definition scales_fuel (min_length : Q) : nat := Z.to_nat (Qceiling min_length).

(** [forward], lines 55-74: the scales for scaling the image.  With an
    infinite [m] or [min_length] the loop is not entered (the test fails on
    minus infinity and on NaN) or never left (plus infinity times [factor] is
    plus infinity).  The [None] branch of the loop is never taken, see
    [scales_loop_terminates]. *)
Definition scale_pyramid (self : MTCNN) (image_01 : tensor) : result (list Q) :=
  match unpack2 (skipn 2 (shape image_01)) with
  | Raise e => Raise e
  | Ok (width, height) =>
      let min_length := Z.min height width in
      if Qeq_bool (min_face_size self) 0 then Raise ZeroDivisionError
      else
        let m := fl (min_detection_size / min_face_size self) in
        let min_length := fmul (of_int min_length) m in
        match m, min_length with
        | Finite m, Finite min_length =>
            match scales_loop (scales_fuel min_length) m min_length 0 [] with
            | Some scales => Ok scales
            | None => Raise NeverReturns
            end
        | _, Infinity false => Raise NeverReturns
        | _, _ => Ok []
        end
  end.

(** [math.ceil(d * scale)], line 28, for a size [d] and a finite [scale]. *)
Definition ceil_mul (d : Z) (scale : Q) : result Z :=
  match fmul (of_int d) (Finite scale) with
  | Finite x => Ok (Qceiling x)
  | Infinity _ =>
      Raise (OverflowError "cannot convert float infinity to integer")
  | NaN => Raise (ValueError "cannot convert float NaN to integer")
  end.

Section Cascade.

Variable E : Env.

Definition call_interpolate (image : tensor) (size : Z * Z) (mode : string)
  : M tensor :=
  emit (Interpolate size mode) ;;; ret (F_interpolate E image size mode).

Definition call_pnet (self : MTCNN) (image : tensor) : M (tensor * tensor) :=
  emit (PNet image) ;;; ret (pnet self image).

Definition call_generate_bboxes (probs offsets : tensor) (scale threshold : Q)
  : M ndarray :=
  emit (GenerateBboxes scale threshold) ;;;
  ret (_generate_bboxes E probs offsets scale threshold).

Definition call_nms (boxes : ndarray) (overlap_threshold : Q) (mode : string)
  : M (list nat) :=
  emit (Nms boxes overlap_threshold mode) ;;;
  ret (nms E boxes overlap_threshold mode).

Definition call_calibrate_box (bboxes offsets : ndarray) : M ndarray :=
  emit (CalibrateBox bboxes offsets) ;;; ret (calibrate_box E bboxes offsets).

Definition call_convert_to_square (bboxes : ndarray) : M ndarray :=
  emit (ConvertToSquare bboxes) ;;; ret (convert_to_square E bboxes).

Definition call_round (bboxes : ndarray) : M ndarray :=
  emit (Round bboxes) ;;; ret (round_cols04 bboxes).

(** [torchvision]'s [to_pil_image] refuses a tensor that has not two or
    three dimensions. *)
Definition call_to_pil_image (image : tensor) : M pil_image :=
  emit ToPilImage ;;;
  if ((ndim image =? 2) || (ndim image =? 3))%Z then ret (to_pil_image E image)
  else raise (ValueError "pic should be 2/3 dimensional").

Definition call_get_image_boxes (bboxes : ndarray) (img : pil_image) (size : Z)
  : M (list tensor) :=
  emit (GetImageBoxes bboxes size) ;;; ret (get_image_boxes E bboxes img size).

Definition call_rnet (self : MTCNN) (img_boxes : list tensor)
  : M (ndarray * ndarray) :=
  emit (RNet (length img_boxes)) ;;; ret (rnet self img_boxes).

Definition call_onet (self : MTCNN) (img_boxes : list tensor)
  : M (ndarray * ndarray * ndarray) :=
  emit (ONet (length img_boxes)) ;;; ret (onet self img_boxes).

(** [np.where(probs[:, 1] > threshold)[0]] *)
Definition call_where (probs : ndarray) (threshold : Q) : M (list nat) :=
  p1 <- lift (col 1 probs) ;;
  emit (Where p1 threshold) ;;;
  ret (where_gt p1 threshold 0).

(** [MTCNN.run_first_stage] *)
Definition run_first_stage (self : MTCNN) (image_01 : tensor)
  (scale threshold : Q) : M (option ndarray) :=
  ' (width, height) <- lift (unpack2 (skipn 2 (shape image_01))) ;;
  sw <- lift (ceil_mul width scale) ;;
  sh <- lift (ceil_mul height scale) ;;
  image_01 <- call_interpolate image_01 (sw, sh) "bilinear" ;;
  let image := normalize self image_01 in
  outputs <- call_pnet self image ;;
  probs <- lift (index01 (snd outputs)) ;;
  let offsets := fst outputs in
  boxes <- call_generate_bboxes probs offsets scale threshold ;;
  if (length boxes =? 0)%nat then ret None
  else
    keep <- call_nms (cols 0 5 boxes) 0.5 nms_default_mode ;;
    kept <- lift (take boxes keep) ;;
    ret (Some kept).

(** [forward], lines 50-53: one image per call. *)
Definition check_input (image_01 : tensor) : M tensor :=
  let image_01 :=
    if (ndim image_01 =? 3)%Z then unsqueeze0 image_01 else image_01 in
  batch <- lift (size0 image_01) ;;
  assert (batch =? 1)%Z "The forward function only accepts a batch size of 1" ;;;
  ret image_01.

(** [forward], lines 76-95: P-Net on every scale, then the first stage of
    the cascade on the collected boxes. *)
Definition stage1 (self : MTCNN) (image_01 : tensor) (scales : list Q)
  : M ndarray :=
  bounding_boxes <-
    mapM (fun s => run_first_stage self image_01 s (item0 (thresholds self)))
      scales ;;
  let bounding_boxes := not_none bounding_boxes in
  bounding_boxes <- np_vstack bounding_boxes ;;
  keep <- call_nms (cols 0 5 bounding_boxes) (item0 (nms_thresholds self))
            nms_default_mode ;;
  bounding_boxes <- lift (take bounding_boxes keep) ;;
  bounding_boxes <- call_calibrate_box (cols 0 5 bounding_boxes)
                      (cols_from 5 bounding_boxes) ;;
  bounding_boxes <- call_convert_to_square bounding_boxes ;;
  call_round bounding_boxes.

(** [forward], lines 105-112: R-Net and its threshold filter; the boxes
    that pass, with their new scores, and their offsets. *)
Definition stage2_filter (self : MTCNN) (bounding_boxes : ndarray)
  (img_boxes : list tensor) : M (ndarray * ndarray) :=
  output <- call_rnet self img_boxes ;;
  let offsets := fst output in
  let probs := snd output in
  keep <- call_where probs (item1 (thresholds self)) ;;
  bounding_boxes <- lift (take bounding_boxes keep) ;;
  probs_keep <- lift (take probs keep) ;;
  scores <- lift (col 1 probs_keep) ;;
  bounding_boxes <- lift (set_col 4 bounding_boxes scores) ;;
  offsets <- lift (take offsets keep) ;;
  ret (bounding_boxes, offsets).

(** [forward], lines 114-118. *)
Definition stage2_suppress (self : MTCNN) (bounding_boxes offsets : ndarray)
  : M ndarray :=
  keep <- call_nms bounding_boxes (item1 (nms_thresholds self))
            nms_default_mode ;;
  bounding_boxes <- lift (take bounding_boxes keep) ;;
  offsets_keep <- lift (take offsets keep) ;;
  bounding_boxes <- call_calibrate_box bounding_boxes offsets_keep ;;
  bounding_boxes <- call_convert_to_square bounding_boxes ;;
  call_round bounding_boxes.

(** [forward], lines 101-118: stage 2 on the PIL image. *)
Definition stage2_crops (self : MTCNN) (image_pil : pil_image)
  (bounding_boxes : ndarray) : M ndarray :=
  img_boxes <- call_get_image_boxes bounding_boxes image_pil 24 ;;
  ' (bounding_boxes, offsets) <- stage2_filter self bounding_boxes img_boxes ;;
  stage2_suppress self bounding_boxes offsets.

(** [forward], lines 99-118. *)
Definition stage2 (self : MTCNN) (image_01 : tensor) (bounding_boxes : ndarray)
  : M (pil_image * ndarray) :=
  image_pil <- call_to_pil_image image_01 ;;
  bounding_boxes <- stage2_crops self image_pil bounding_boxes ;;
  ret (image_pil, bounding_boxes).

(** [forward], lines 128-137: O-Net and its threshold filter. *)
Definition stage3_filter (self : MTCNN) (bounding_boxes : ndarray)
  (img_boxes : list tensor) : M (ndarray * ndarray * ndarray) :=
  output <- call_onet self img_boxes ;;
  let landmarks := fst (fst output) in
  let offsets := snd (fst output) in
  let probs := snd output in
  keep <- call_where probs (item2 (thresholds self)) ;;
  bounding_boxes <- lift (take bounding_boxes keep) ;;
  probs_keep <- lift (take probs keep) ;;
  scores <- lift (col 1 probs_keep) ;;
  bounding_boxes <- lift (set_col 4 bounding_boxes scores) ;;
  offsets <- lift (take offsets keep) ;;
  landmarks <- lift (take landmarks keep) ;;
  ret (bounding_boxes, offsets, landmarks).

(** One row of lines 143-144: the first five entries are x coordinates,
    the next five are y coordinates. *)
Definition landmark_row (xmin ymin width height : Q) (row : list Q) : list Q :=
  map (fun l => xmin + width * l) (firstn 5 row)
  ++ map (fun l => ymin + height * l) (firstn 5 (skipn 5 row))
  ++ skipn 10 row.

Fixpoint landmark_rows (xmin ymin width height : list Q) (landmarks : ndarray)
  : result ndarray :=
  match xmin, ymin, width, height, landmarks with
  | [], [], [], [], [] => Ok []
  | x :: xs, y :: ys, w :: ws, h :: hs, row :: rows =>
      match landmark_rows xs ys ws hs rows with
      | Ok rows' => Ok (landmark_row x y w h row :: rows')
      | Raise e => Raise e
      end
  | _, _, _, _, _ => Raise (ValueError "operands could not be broadcast together")
  end.

(** [forward], lines 139-144: compute landmark points. *)
Definition compute_landmarks (bounding_boxes landmarks : ndarray)
  : result ndarray :=
  match col 2 bounding_boxes, col 0 bounding_boxes,
        col 3 bounding_boxes, col 1 bounding_boxes with
  | Ok x2, Ok x0, Ok y3, Ok y1 =>
      let width := map (fun p => fst p - snd p + 1.0) (combine x2 x0) in
      let height := map (fun p => fst p - snd p + 1.0) (combine y3 y1) in
      landmark_rows x0 y1 width height landmarks
  | _, _, _, _ => Raise IndexError
  end.

(** [forward], lines 146-151. *)
Definition stage3_suppress (self : MTCNN)
  (bounding_boxes offsets landmarks : ndarray) : M (ndarray * ndarray) :=
  bounding_boxes <- call_calibrate_box bounding_boxes offsets ;;
  keep <- call_nms bounding_boxes (item2 (nms_thresholds self)) "min" ;;
  bounding_boxes <- lift (take bounding_boxes keep) ;;
  landmarks <- lift (take landmarks keep) ;;
  ret (bounding_boxes, landmarks).

(** [forward], lines 122-151. *)
Definition stage3 (self : MTCNN) (image_pil : pil_image)
  (bounding_boxes : ndarray) : M (ndarray * ndarray) :=
  img_boxes <- call_get_image_boxes bounding_boxes image_pil 48 ;;
  if (length img_boxes =? 0)%nat then ret ([], [])
  else
    ' (bounding_boxes, offsets, landmarks) <-
        stage3_filter self bounding_boxes img_boxes ;;
    landmarks <- lift (compute_landmarks bounding_boxes landmarks) ;;
    stage3_suppress self bounding_boxes offsets landmarks.

(** [forward], lines 55-151: the pyramid and the three stages. *)
Definition cascade (self : MTCNN) (image_01 : tensor) : M (ndarray * ndarray) :=
  scales <- lift (scale_pyramid self image_01) ;;
  bounding_boxes <- stage1 self image_01 scales ;;
  ' (image_pil, bounding_boxes) <- stage2 self image_01 bounding_boxes ;;
  stage3 self image_pil bounding_boxes.

(** [MTCNN.forward] *)
Definition forward (self : MTCNN) (image_01 : tensor) : M (ndarray * ndarray) :=
  image_01 <- check_input image_01 ;;
  cascade self image_01.

(** Running [forward] from an empty call log. *)
Definition detect (self : MTCNN) (image_01 : tensor)
  : result (ndarray * ndarray) * list event :=
  forward self image_01 [].

End Cascade.

(** ** Reading the call log *)

(** The steps of the cascade, as the spec names them. *)
Inductive step : Type :=
| Resize
| Network
| Threshold (threshold : Q)
| Suppress (overlap_threshold : Q) (mode : string)
| Merge
| Calibrate
| Square
| Rounding
| Convert
| Crop.

Definition step_of (ev : event) : step :=
  match ev with
  | Interpolate _ _ => Resize
  | PNet _ | RNet _ | ONet _ => Network
  | GenerateBboxes _ threshold | Where _ threshold => Threshold threshold
  | Nms _ overlap_threshold mode => Suppress overlap_threshold mode
  | Vstack _ => Merge
  | CalibrateBox _ _ => Calibrate
  | ConvertToSquare _ => Square
  | Round _ => Rounding
  | ToPilImage => Convert
  | GetImageBoxes _ _ => Crop
  end.

(** The calls made by [run_first_stage]. *)
Definition is_scale_run (ev : event) : bool :=
  match ev with
  | Interpolate _ _ | PNet _ | GenerateBboxes _ _ | Nms _ _ _ => true
  | _ => false
  end.

(** What a proposal run hands to the merge of line 85. *)
Definition boxes_of_run (r : option ndarray) : ndarray :=
  match r with
  | Some boxes => boxes
  | None => []
  end.


(** [r] is [a[keep]]: as many rows as indices, row [i] being row [keep[i]]
    of [a]. *)
Definition selects (keep : list nat) (a r : ndarray) : Prop :=
  length r = length keep
  /\ forall i k,
      nth_error keep i = Some k ->
      exists row, nth_error a k = Some row /\ nth_error r i = Some row.

(** [a[keep]] raises: an index of [keep] is past the last row of [a]. *)
Definition out_of_range (keep : list nat) (a : ndarray) : Prop :=
  exists k, In k keep /\ (length a <= k)%nat.

(** A proposal run that returned: on [scale] it returned [r] and made the
    calls [evs]. *)
Definition scale_run (E : Env) (self : MTCNN) (image_01 : tensor)
  (threshold scale : Q) (r : option ndarray) (evs : list event) : Prop :=
  exists (n c width height sw sh : Z) (probs : tensor),
    shape image_01 = [n; c; width; height]
    /\ ceil_mul width scale = Ok sw
    /\ ceil_mul height scale = Ok sh
    /\ let size := (sw, sh) in
       let image := normalize self (F_interpolate E image_01 size "bilinear") in
       let outputs := pnet self image in
       index01 (snd outputs) = Ok probs
       /\ let boxes := _generate_bboxes E probs (fst outputs) scale threshold in
          ((length boxes = 0%nat
            /\ r = None
            /\ evs = [Interpolate size "bilinear"; PNet image;
                      GenerateBboxes scale threshold])
           \/ (length boxes <> 0%nat
               /\ (exists kept,
                      selects (nms E (cols 0 5 boxes) 0.5 "union") boxes kept
                      /\ r = Some kept)
               /\ evs = [Interpolate size "bilinear"; PNet image;
                         GenerateBboxes scale threshold;
                         Nms (cols 0 5 boxes) 0.5 "union"])).

(** The proposal runs over a list of scales, in order. *)
Inductive scale_runs (E : Env) (self : MTCNN) (image_01 : tensor)
  (threshold : Q)
  : list Q -> list (option ndarray) -> list (list event) -> Prop :=
| scale_runs_nil : scale_runs E self image_01 threshold [] [] []
| scale_runs_cons scale r evs scales rs runs :
    scale_run E self image_01 threshold scale r evs ->
    scale_runs E self image_01 threshold scales rs runs ->
    scale_runs E self image_01 threshold (scale :: scales) (r :: rs)
      (evs :: runs).








(** [detect] rejects the image before the pyramid is built. *)
Definition rejected_up_front (image_01 : tensor) : Prop :=
  exists e, fst (check_input image_01 []) = Raise e.

(** ** A test double for the collaborators

    A small, executable environment in the manner of the stub networks of
    the spec's test scenarios (8.6, 8.7): it is used only to run the cascade
    on concrete images.  The networks answer "face" exactly when the first
    pixel they are shown is positive. *)

Module Stub.

Definition first_pixel (t : tensor) : Q := hd 0 (data t).

(** Resizes a uniformly coloured image. *)
Definition interpolate (image : tensor) (size : Z * Z) (mode : string) : tensor :=
  match shape image with
  | [n; c; _; _] =>
      mkTensor [n; c; fst size; snd size]
        (repeat (first_pixel image) (Z.to_nat (n * c * fst size * snd size)))
  | _ => image
  end.

Definition face_prob (t : tensor) : Q :=
  if Qgtb (first_pixel t) 0 then 0.9 else 0.1.

(** A proposal network with a single grid position. *)
Definition pnet (image : tensor) : tensor * tensor :=
  (mkTensor [1; 4; 1; 1]%Z [0.1; 0.1; -0.1; -0.1],
   mkTensor [1; 2; 1; 1]%Z [1 - face_prob image; face_prob image]).

Definition rnet (img_boxes : list tensor) : ndarray * ndarray :=
  (map (fun _ => [0; 0; 0; 0]) img_boxes,
   map (fun crop => [1 - face_prob crop; face_prob crop]) img_boxes).

Definition onet (img_boxes : list tensor) : ndarray * ndarray * ndarray :=
  (map (fun _ => [0.3; 0.7; 0.5; 0.3; 0.7; 0.3; 0.3; 0.5; 0.7; 0.7]) img_boxes,
   map (fun _ => [0.1; 0.1; -0.1; -0.1]) img_boxes,
   map (fun crop => [1 - face_prob crop; face_prob crop]) img_boxes).

(** One box per grid position over the threshold (cell 12, stride 2). *)
Definition generate_bboxes (probs offsets : tensor) (scale threshold : Q)
  : ndarray :=
  match shape probs with
  | [h; w] =>
      flat_map
        (fun idx =>
           let p := nth idx (data probs) 0 in
           let hw := Z.to_nat (h * w) in
           let i := inject_Z (Z.of_nat idx / w) in
           let j := inject_Z (Z.of_nat idx mod w) in
           if Qgtb p threshold then
             [[np_round (j * 2 / scale); np_round (i * 2 / scale);
               np_round ((j * 2 + 11) / scale); np_round ((i * 2 + 11) / scale);
               p;
               nth idx (data offsets) 0; nth (hw + idx) (data offsets) 0;
               nth (2 * hw + idx) (data offsets) 0;
               nth (3 * hw + idx) (data offsets) 0]]
           else [])
        (seq 0 (Z.to_nat (h * w)))
  | _ => []
  end.

(** Suppresses nothing: every index is kept, in order. *)
Definition nms (boxes : ndarray) (overlap_threshold : Q) (mode : string)
  : list nat :=
  seq 0 (length boxes).

Definition calibrate_row (box offset : list Q) : list Q :=
  match box, offset with
  | x1 :: y1 :: x2 :: y2 :: rest, [dx1; dy1; dx2; dy2] =>
      let w := x2 - x1 + 1 in
      let h := y2 - y1 + 1 in
      (x1 + dx1 * w) :: (y1 + dy1 * h) :: (x2 + dx2 * w) :: (y2 + dy2 * h) :: rest
  | _, _ => box
  end.

Definition calibrate_box (bboxes offsets : ndarray) : ndarray :=
  map (fun p => calibrate_row (fst p) (snd p)) (combine bboxes offsets).

Definition square_row (box : list Q) : list Q :=
  match box with
  | x1 :: y1 :: x2 :: y2 :: rest =>
      let w := x2 - x1 + 1 in
      let h := y2 - y1 + 1 in
      let side := if Qle_bool w h then h else w in
      let x1' := x1 + w / 2 - side / 2 in
      let y1' := y1 + h / 2 - side / 2 in
      x1' :: y1' :: (x1' + side - 1) :: (y1' + side - 1) :: rest
  | _ => box
  end.

Definition convert_to_square (bboxes : ndarray) : ndarray :=
  map square_row bboxes.

(** One uniformly coloured crop per box. *)
Definition get_image_boxes (bboxes : ndarray) (img : pil_image) (size : Z)
  : list tensor :=
  map (fun _ => mkTensor [3; size; size]%Z
                  (repeat (first_pixel img) (Z.to_nat (3 * size * size))))
    bboxes.

Definition env : Env :=
  mkEnv interpolate (fun t => t) generate_bboxes nms calibrate_box
    convert_to_square get_image_boxes.

Definition mtcnn : MTCNN := MTCNN_init pnet rnet onet.

(** A uniformly coloured image of the given size, one channel. *)
Definition uniform (width height : Z) (p : Q) : tensor :=
  mkTensor [1; 1; width; height]%Z (repeat p (Z.to_nat (width * height))).

(** A uniformly coloured square crop, three channels. *)
Definition crop (size : Z) (p : Q) : tensor :=
  mkTensor [3; size; size]%Z (repeat p (Z.to_nat (3 * size * size))).






(** The scale pyramid of a 30 x 30 image under the default
    configuration. *)
Definition face_scales : list Q :=
  [pyramid_scale (round64 (12 / 20)) 0; pyramid_scale (round64 (12 / 20)) 1].

(** A bright 30 x 30 image, and what stage 3 returns on the two boxes
    [[2; 2; 16; 16; 0.9]] and [[3; 3; 23; 23; 0.9]] of it. *)
Definition face_image : tensor := uniform 30 30 1.

Definition face_boxes : ndarray :=
  [[3.5; 3.5; 14.5; 14.5; 0.9]; [5.1; 5.1; 20.9; 20.9; 0.9]].

Definition face_landmarks : ndarray :=
  [[6.50; 12.50; 9.50; 6.50; 12.50; 6.50; 6.50; 9.50; 12.50; 12.50];
   [9.30; 17.70; 13.50; 9.30; 17.70; 9.30; 9.30; 13.50; 17.70; 17.70]].

End Stub.

(** ** Binary64 arithmetic: the rounding *)

Lemma pow2_pos (e : Z) : 0 < 2 ^ e.
Proof. apply Qpower_0_lt. reflexivity. Qed.

Lemma pow2_le (a b : Z) : (a <= b)%Z -> 2 ^ a <= 2 ^ b.
Proof. intros H. apply Qpower_le_compat_l; [exact H | discriminate]. Qed.

Lemma pow2_lt_inv (a b : Z) : 2 ^ a < 2 ^ b -> (a < b)%Z.
Proof.
  intros H. destruct (Z.lt_ge_cases a b) as [Hlt|Hge]; [exact Hlt|exfalso].
  apply pow2_le in Hge. apply (Qlt_not_le _ _ H Hge).
Qed.

Lemma pow2_add (a b : Z) : 2 ^ (a + b) == 2 ^ a * 2 ^ b.
Proof. apply Qpower_plus. discriminate. Qed.

Lemma pow2_Z (n : Z) : (0 <= n)%Z -> inject_Z (2 ^ n) == 2 ^ n.
Proof. intros H. rewrite Zpower_Qpower by exact H. reflexivity. Qed.

Lemma floor_log2_spec (x : Q) :
  0 < x -> 2 ^ floor_log2 x <= x /\ x < 2 ^ (floor_log2 x + 1).
Proof.
  intros Hx. unfold floor_log2.
  destruct x as [n d]. cbn [Qnum Qden].
  assert (Hn : (0 < n)%Z).
  { unfold Qlt in Hx. cbn in Hx. lia. }
  pose proof (Z.log2_spec n Hn) as [Ha1 Ha2].
  pose proof (Z.log2_spec (Z.pos d) (Pos2Z.is_pos d)) as [Hb1 Hb2].
  pose proof (Z.log2_nonneg n) as Ha0.
  pose proof (Z.log2_nonneg (Z.pos d)) as Hb0.
  set (a := Z.log2 n) in *. set (b := Z.log2 (Z.pos d)) in *.
  rewrite Zle_Qle, pow2_Z in Ha1 by exact Ha0.
  rewrite Zlt_Qlt, pow2_Z in Ha2 by lia.
  rewrite Zle_Qle, pow2_Z in Hb1 by exact Hb0.
  rewrite Zlt_Qlt, pow2_Z in Hb2 by lia.
  unfold Z.succ in *.
  assert (HX : (n # d) * inject_Z (Z.pos d) == inject_Z n).
  { rewrite (Qmake_Qdiv n d). field. discriminate. }
  set (X := n # d) in *. set (D := inject_Z (Z.pos d)) in *.
  set (N := inject_Z n) in *.
  assert (HD : 0 < D) by (pose proof (pow2_pos b); lra).
  assert (Hup : X < 2 ^ (a - b + 1)).
  { assert (E : 2 ^ (a - b + 1) * 2 ^ b == 2 ^ (a + 1)).
    { rewrite <- pow2_add. replace (a - b + 1 + b)%Z with (a + 1)%Z by lia.
      reflexivity. }
    pose proof (pow2_pos (a - b + 1)) as Hp. pose proof (pow2_pos b) as Hpb.
    set (P := 2 ^ (a - b + 1)) in *. set (Pb := 2 ^ b) in *.
    set (Pa := 2 ^ (a + 1)) in *.
    apply Qnot_le_lt. intros Hle.
    assert (H1 : P * D <= X * D) by (apply Qmult_le_compat_r; lra).
    assert (H2 : P * Pb <= P * D).
    { rewrite !(Qmult_comm P). apply Qmult_le_compat_r; lra. }
    lra. }
  assert (Hlow : 2 ^ (a - b - 1) <= X).
  { assert (E : 2 ^ (a - b - 1) * 2 ^ (b + 1) == 2 ^ a).
    { rewrite <- pow2_add. replace (a - b - 1 + (b + 1))%Z with a by lia.
      reflexivity. }
    pose proof (pow2_pos (a - b - 1)) as Hp.
    set (P := 2 ^ (a - b - 1)) in *. set (Pb := 2 ^ (b + 1)) in *.
    set (Pa := 2 ^ a) in *.
    apply Qnot_lt_le. intros Hlt.
    assert (H1 : X * D < P * D) by (apply Qmult_lt_compat_r; lra).
    assert (H2 : P * D <= P * Pb).
    { rewrite !(Qmult_comm P). apply Qmult_le_compat_r; lra. }
    lra. }
  destruct (Qle_bool (2 ^ (a - b)) X) eqn:Hb.
  - apply Qle_bool_iff in Hb. split; assumption.
  - assert (Hlt : X < 2 ^ (a - b)).
    { apply Qnot_le_lt. intros Hle. apply Qle_bool_iff in Hle. congruence. }
    replace (a - b - 1 + 1)%Z with (a - b)%Z by lia. split; assumption.
Qed.

(** [floor_log2 x] is the largest [k] with [2^k <= x]. *)
Lemma floor_log2_ge (x : Q) (k : Z) :
  0 < x -> 2 ^ k <= x -> (k <= floor_log2 x)%Z.
Proof.
  intros Hx Hk. destruct (floor_log2_spec x Hx) as [_ Hup].
  assert (H : 2 ^ k < 2 ^ (floor_log2 x + 1)) by lra.
  apply pow2_lt_inv in H. lia.
Qed.

Lemma floor_log2_lt (x : Q) (k : Z) :
  0 < x -> x < 2 ^ k -> (floor_log2 x < k)%Z.
Proof.
  intros Hx Hk. destruct (floor_log2_spec x Hx) as [Hlow _].
  apply pow2_lt_inv. lra.
Qed.

Lemma floor_log2_mono (x y : Q) :
  0 < x -> x <= y -> (floor_log2 x <= floor_log2 y)%Z.
Proof.
  intros Hx Hxy. apply floor_log2_ge; [lra|].
  destruct (floor_log2_spec x Hx) as [Hlow _]. lra.
Qed.

Lemma floor_log2_comp (x y : Q) :
  0 < x -> x == y -> floor_log2 x = floor_log2 y.
Proof.
  intros Hx Hxy.
  assert (Hy : 0 < y) by lra.
  apply Z.le_antisymm; apply floor_log2_mono; lra.
Qed.

(** *** Rounding to an integer *)

Lemma rne_cases (y : Q) : rne y = Qfloor y \/ rne y = (Qfloor y + 1)%Z.
Proof.
  unfold rne. destruct (_ ?= _); [destruct (Z.even _)| |]; auto.
Qed.

Lemma rne_error (y : Q) :
  y - (1 # 2) <= inject_Z (rne y) <= y + (1 # 2).
Proof.
  unfold rne. pose proof (Qfloor_le y) as H1. pose proof (Qlt_floor y) as H2.
  rewrite inject_Z_plus in H2. change (inject_Z 1) with 1 in H2.
  destruct (Qcompare_spec (y - inject_Z (Qfloor y)) (1 # 2)) as [He|Hl|Hg].
  - destruct (Z.even _); [|rewrite inject_Z_plus; change (inject_Z 1) with 1];
      lra.
  - lra.
  - rewrite inject_Z_plus. change (inject_Z 1) with 1. lra.
Qed.

Lemma rne_Z (z : Z) : rne (inject_Z z) = z.
Proof.
  unfold rne. rewrite Qfloor_Z.
  destruct (Qcompare_spec (inject_Z z - inject_Z z) (1 # 2)) as [He|Hl|Hg];
    [lra | reflexivity | lra].
Qed.

Lemma rne_mono (x y : Q) : x <= y -> (rne x <= rne y)%Z.
Proof.
  intros Hxy. pose proof (Qfloor_resp_le x y Hxy) as Hf.
  destruct (Z.eq_dec (Qfloor x) (Qfloor y)) as [Heq|Hne].
  - unfold rne. rewrite Heq.
    destruct (Qcompare_spec (x - inject_Z (Qfloor y)) (1 # 2)) as [He|Hl|Hg];
      destruct (Qcompare_spec (y - inject_Z (Qfloor y)) (1 # 2)) as [He'|Hl'|Hg'];
      try destruct (Z.even (Qfloor y)); try lia; lra.
  - destruct (rne_cases x) as [-> | ->]; destruct (rne_cases y) as [-> | ->]; lia.
Qed.

Lemma rne_comp (x y : Q) : x == y -> rne x = rne y.
Proof.
  intros H. apply Z.le_antisymm; apply rne_mono; lra.
Qed.

(** *** Rounding to binary64 *)

Lemma round64_0 : round64 0 = 0.
Proof. reflexivity. Qed.

Lemma round64_nonzero (x : Q) :
  ~ x == 0 ->
  round64 x = inject_Z (rne (x / 2 ^ ulp_exponent x)) * 2 ^ ulp_exponent x.
Proof.
  intros H. unfold round64.
  destruct (Qeq_bool x 0) eqn:Hb; [|reflexivity].
  apply Qeq_bool_iff in Hb. contradiction.
Qed.

Lemma round64_nonneg (x : Q) : 0 <= x -> 0 <= round64 x.
Proof.
  intros Hx. unfold round64. destruct (Qeq_bool x 0); [lra|].
  cbv zeta. pose proof (pow2_pos (ulp_exponent x)) as Hp.
  set (P := 2 ^ ulp_exponent x) in *.
  assert (H0 : 0 <= x / P) by (apply Qle_shift_div_l; lra).
  assert (Hr : (0 <= rne (x / P))%Z).
  { rewrite <- (rne_Z 0). apply rne_mono. exact H0. }
  rewrite Zle_Qle in Hr. change (inject_Z 0) with 0 in Hr.
  apply Qmult_le_0_compat; lra.
Qed.

Lemma round64_nonpos (x : Q) : x <= 0 -> round64 x <= 0.
Proof.
  intros Hx. unfold round64. destruct (Qeq_bool x 0); [lra|].
  cbv zeta. pose proof (pow2_pos (ulp_exponent x)) as Hp.
  set (P := 2 ^ ulp_exponent x) in *.
  assert (H0 : x / P <= 0) by (apply Qle_shift_div_r; lra).
  assert (Hr : (rne (x / P) <= 0)%Z).
  { rewrite <- (rne_Z 0). apply rne_mono. exact H0. }
  rewrite Zle_Qle in Hr. change (inject_Z 0) with 0 in Hr.
  set (R := inject_Z (rne (x / P))) in *. nra.
Qed.

Lemma ulp_exponent_pos (x : Q) :
  0 < x -> ulp_exponent x = Z.max (floor_log2 x - 52) (-1074).
Proof.
  intros Hx. unfold ulp_exponent. f_equal. f_equal.
  apply floor_log2_comp; [|apply Qabs_pos; lra].
  rewrite Qabs_pos; lra.
Qed.

Lemma ulp_exponent_mono (x y : Q) :
  0 < x -> x <= y -> (ulp_exponent x <= ulp_exponent y)%Z.
Proof.
  intros Hx Hxy. rewrite !ulp_exponent_pos by lra.
  pose proof (floor_log2_mono x y Hx Hxy). lia.
Qed.

Lemma ulp_exponent_normal (x : Q) :
  2 ^ (-1022) <= x -> ulp_exponent x = (floor_log2 x - 52)%Z.
Proof.
  intros Hx. assert (H0 : 0 < x) by (pose proof (pow2_pos (-1022)); lra).
  rewrite ulp_exponent_pos by exact H0.
  pose proof (floor_log2_ge x (-1022) H0 Hx). lia.
Qed.

Lemma round64_pos_eq (x : Q) :
  0 < x ->
  round64 x = inject_Z (rne (x / 2 ^ ulp_exponent x)) * 2 ^ ulp_exponent x.
Proof. intros Hx. apply round64_nonzero. lra. Qed.

(** The relative error of rounding, away from the subnormal range. *)
Lemma round64_error (x : Q) :
  2 ^ (-1022) <= x ->
  x - x * eps64 <= round64 x <= x + x * eps64.
Proof.
  intros Hx. assert (H0 : 0 < x) by (pose proof (pow2_pos (-1022)); lra).
  rewrite (round64_pos_eq x H0), (ulp_exponent_normal x Hx).
  destruct (floor_log2_spec x H0) as [Hlow _].
  set (k := floor_log2 x) in *.
  assert (E : 2 ^ (k - 52) * 2 == 2 ^ k * (eps64 * 2 * 2)).
  { replace (k - 52)%Z with (k + -52)%Z by lia. rewrite pow2_add.
    assert (C : 2 ^ (-52) * 2 == eps64 * 2 * 2) by reflexivity.
    rewrite <- Qmult_assoc, C. reflexivity. }
  pose proof (pow2_pos (k - 52)) as Hp. pose proof (pow2_pos k) as Hk.
  assert (He : 0 < eps64) by (apply pow2_pos).
  set (P := 2 ^ (k - 52)) in *. set (K := 2 ^ k) in *.
  pose proof (rne_error (x / P)) as [H1 H2].
  set (R := inject_Z (rne (x / P))) in *.
  assert (Hy : x / P * P == x) by (field; lra).
  set (y := x / P) in *.
  assert (H3 : (y - (1 # 2)) * P <= R * P) by (apply Qmult_le_compat_r; lra).
  assert (H4 : R * P <= (y + (1 # 2)) * P) by (apply Qmult_le_compat_r; lra).
  assert (H5 : K * eps64 <= x * eps64) by (apply Qmult_le_compat_r; lra).
  split; nra.
Qed.

Lemma round64_upper_pow (x : Q) :
  0 < x -> round64 x <= 2 ^ (ulp_exponent x + 53).
Proof.
  intros Hx. rewrite (round64_pos_eq x Hx).
  destruct (floor_log2_spec x Hx) as [_ Hup].
  pose proof (ulp_exponent_pos x Hx) as He.
  set (e := ulp_exponent x) in *.
  pose proof (pow2_pos e) as Hp.
  assert (Hx53 : x <= 2 ^ 53 * 2 ^ e).
  { rewrite <- pow2_add.
    apply Qle_trans with (2 ^ (floor_log2 x + 1)); [lra|].
    apply pow2_le. lia. }
  assert (Hy : x / 2 ^ e <= inject_Z (2 ^ 53)).
  { apply Qle_shift_div_r; [exact Hp|]. rewrite pow2_Z by lia. exact Hx53. }
  pose proof (rne_mono _ _ Hy) as Hr. rewrite rne_Z in Hr.
  rewrite Zle_Qle, pow2_Z in Hr by lia.
  rewrite (Z.add_comm e 53), pow2_add.
  apply Qmult_le_compat_r; lra.
Qed.

Lemma round64_lower_pow (x : Q) :
  0 < x -> (-1074 < ulp_exponent x)%Z -> 2 ^ (ulp_exponent x + 52) <= round64 x.
Proof.
  intros Hx Hn. rewrite (round64_pos_eq x Hx).
  destruct (floor_log2_spec x Hx) as [Hlow _].
  pose proof (ulp_exponent_pos x Hx) as He.
  set (e := ulp_exponent x) in *.
  pose proof (pow2_pos e) as Hp.
  assert (Hx52 : 2 ^ 52 * 2 ^ e <= x).
  { rewrite <- pow2_add. replace (52 + e)%Z with (floor_log2 x) by lia.
    exact Hlow. }
  assert (Hy : inject_Z (2 ^ 52) <= x / 2 ^ e).
  { apply Qle_shift_div_l; [exact Hp|]. rewrite pow2_Z by lia. exact Hx52. }
  pose proof (rne_mono _ _ Hy) as Hr. rewrite rne_Z in Hr.
  rewrite Zle_Qle, pow2_Z in Hr by lia.
  rewrite (Z.add_comm e 52), pow2_add.
  apply Qmult_le_compat_r; lra.
Qed.

(** Rounding is monotone. *)
Lemma round64_le (x y : Q) : 0 <= x -> x <= y -> round64 x <= round64 y.
Proof.
  intros Hx Hxy.
  destruct (Qlt_le_dec 0 x) as [Hpos|Hz].
  - assert (Hy : 0 < y) by lra.
    pose proof (ulp_exponent_mono x y Hpos Hxy) as He.
    destruct (Z.eq_dec (ulp_exponent x) (ulp_exponent y)) as [Heq|Hne].
    + rewrite (round64_pos_eq x Hpos), (round64_pos_eq y Hy), Heq.
      pose proof (pow2_pos (ulp_exponent y)) as Hp.
      apply Qmult_le_compat_r; [|lra].
      rewrite <- Zle_Qle. apply rne_mono.
      apply Qmult_le_compat_r; [exact Hxy|].
      apply Qlt_le_weak, Qinv_lt_0_compat, Hp.
    + apply Qle_trans with (2 ^ (ulp_exponent x + 53));
        [apply round64_upper_pow; exact Hpos|].
      apply Qle_trans with (2 ^ (ulp_exponent y + 52));
        [apply pow2_le; lia|].
      apply round64_lower_pow; [exact Hy|].
      rewrite (ulp_exponent_pos x Hpos) in *. lia.
  - assert (E : x == 0) by lra.
    unfold round64 at 1. apply Qeq_bool_iff in E. rewrite E.
    apply round64_nonneg. lra.
Qed.

Lemma round64_comp (x y : Q) : x == y -> round64 x = round64 y.
Proof.
  intros H. unfold round64.
  destruct (Qeq_bool x 0) eqn:Hx; destruct (Qeq_bool y 0) eqn:Hy.
  - reflexivity.
  - apply Qeq_bool_iff in Hx. rewrite H in Hx. apply Qeq_bool_iff in Hx.
    congruence.
  - apply Qeq_bool_iff in Hy. rewrite <- H in Hy. apply Qeq_bool_iff in Hy.
    congruence.
  - cbv zeta.
    assert (He : ulp_exponent x = ulp_exponent y).
    { unfold ulp_exponent. f_equal. f_equal.
      apply floor_log2_comp; [|rewrite H; reflexivity].
      apply Qeq_bool_neq in Hx.
      destruct (Qlt_le_dec 0 x); [rewrite Qabs_pos; lra|].
      rewrite Qabs_neg by assumption. lra. }
    rewrite He. f_equal. f_equal. apply rne_comp. rewrite H. reflexivity.
Qed.

Lemma fl_finite (x : Q) :
  Qabs (round64 x) < 2 ^ 1024 -> fl x = Finite (round64 x).
Proof.
  intros H. unfold fl. cbv zeta.
  destruct (Qle_bool (2 ^ 1024) (Qabs (round64 x))) eqn:Hb; [|reflexivity].
  apply Qle_bool_iff in Hb. exfalso. apply (Qlt_not_le _ _ H Hb).
Qed.

(** ** The scale pyramid: the loop and its exit *)

Lemma factor_eq : factor = 6368089873101881 # 9007199254740992.
Proof. vm_compute. reflexivity. Qed.

Lemma eps64_eq : eps64 = 1 # 9007199254740992.
Proof. vm_compute. reflexivity. Qed.

Lemma factor_pos : 0 < factor.
Proof. rewrite factor_eq. reflexivity. Qed.

Lemma factor_neq0 : ~ factor == 0.
Proof. rewrite factor_eq. discriminate. Qed.

Lemma factor_pow_S (k : nat) :
  factor ^ Z.of_nat (S k) == factor ^ Z.of_nat k * factor.
Proof.
  rewrite Nat2Z.inj_succ. unfold Z.succ.
  rewrite Qpower_plus by exact factor_neq0.
  rewrite Qpower_1_r. reflexivity.
Qed.

Lemma factor_pow_pos (k : nat) : 0 < factor ^ Z.of_nat k.
Proof. apply Qpower_0_lt, factor_pos. Qed.

Lemma normal_le_1 : 2 ^ (-1022) <= 1.
Proof. apply Qle_bool_iff. vm_compute. reflexivity. Qed.

(** One turn of the loop makes the ceiling of [min_length] drop. *)
Lemma scales_fuel_step (x : Q) :
  min_detection_size < x ->
  (scales_fuel (round64 (x * factor)) < scales_fuel x)%nat.
Proof.
  intros Hx. unfold scales_fuel, min_detection_size in *.
  pose proof normal_le_1 as Hn.
  assert (Hy : 2 ^ (-1022) <= x * factor) by (rewrite factor_eq; lra).
  pose proof (round64_error _ Hy) as [_ Hup].
  rewrite factor_eq, eps64_eq in *.
  set (r := round64 _) in *.
  assert (Hstep : r <= x - 1) by lra.
  pose proof (Qceiling_lt r) as H1.
  pose proof (Qle_ceiling x) as H2.
  assert (H3 : inject_Z (Qceiling r) < inject_Z (Qceiling x)).
  { unfold Z.sub in H1. rewrite inject_Z_plus, inject_Z_opp in H1.
    change (inject_Z 1) with 1 in H1. lra. }
  rewrite <- Zlt_Qlt in H3.
  assert (H4 : (0 < Qceiling x)%Z).
  { rewrite Zlt_Qlt. change (inject_Z 0) with 0. lra. }
  lia.
Qed.

Lemma min_length_at_shift (x : Q) (k : nat) :
  min_length_at (round64 (x * factor)) k = min_length_at x (S k).
Proof.
  induction k as [|k IH]; [reflexivity|].
  cbn [min_length_at] in *. rewrite IH. reflexivity.
Qed.

(** The loop leaves through its condition, after [n] turns, having appended
    the scales of the turns [k], [k + 1], ..., [k + n - 1]. *)
Lemma scales_loop_spec (fuel : nat) :
  forall (m x : Q) (k : nat) (acc : list Q),
    (scales_fuel x <= fuel)%nat ->
    exists n : nat,
      scales_loop fuel m x k acc
      = Some (acc ++ map (fun i => pyramid_scale m (k + i)) (seq 0 n))
      /\ (forall i, (i < n)%nat -> min_detection_size < min_length_at x i)
      /\ min_length_at x n <= min_detection_size.
Proof.
  induction fuel as [|fuel IH]; intros m x k acc Hfuel.
  - exists 0%nat. cbn [scales_loop seq map min_length_at].
    destruct (Qlt_le_dec min_detection_size x) as [Hgt|Hle].
    + pose proof (scales_fuel_step x Hgt). lia.
    + rewrite app_nil_r. repeat split; [intros i Hi; lia | exact Hle].
  - cbn [scales_loop]. destruct (Qlt_le_dec min_detection_size x) as [Hgt|Hle].
    + pose proof (scales_fuel_step x Hgt) as Hstep.
      destruct (IH m (round64 (x * factor)) (S k)
                  (acc ++ [pyramid_scale m k])) as (n & Heq & Hlt & Hend);
        [lia|].
      exists (S n). rewrite Heq. repeat split.
      * f_equal. rewrite <- app_assoc. f_equal. cbn [seq map app].
        rewrite Nat.add_0_r. f_equal.
        rewrite <- seq_shift, map_map.
        apply map_ext. intros i. f_equal. lia.
      * intros [|i] Hi; [exact Hgt|].
        rewrite <- min_length_at_shift. apply Hlt. lia.
      * rewrite <- min_length_at_shift. exact Hend.
    + exists 0%nat. cbn [seq map min_length_at]. rewrite app_nil_r.
      repeat split; [intros i Hi; lia | exact Hle].
Qed.

(** The fuel handed to the loop by [scale_pyramid] is never exhausted. *)
Lemma scales_loop_terminates (m x : Q) :
  scales_loop (scales_fuel x) m x 0 [] <> None.
Proof.
  destruct (scales_loop_spec (scales_fuel x) m x 0 [] (le_n _)) as (n & Heq & _).
  rewrite Heq. discriminate.
Qed.

Lemma scales_loop_exit (fuel : nat) (m x : Q) (k : nat) (acc : list Q) :
  x <= min_detection_size -> scales_loop fuel m x k acc = Some acc.
Proof.
  intros Hx. destruct fuel; cbn [scales_loop];
    destruct (Qlt_le_dec min_detection_size x) as [Hgt|_];
    try reflexivity; exfalso; apply (Qlt_not_le _ _ Hgt Hx).
Qed.

Lemma decreasing_map_seq (g : nat -> Q) (n s : nat) :
  (forall i j, (s <= i < j)%nat -> (j < s + n)%nat -> g j < g i) ->
  StronglySorted (fun a b => b < a) (map g (seq s n)).
Proof.
  revert s. induction n as [|n IH]; intros s Hg; cbn [seq map].
  - constructor.
  - constructor.
    + apply IH. intros i j Hij Hj. apply Hg; lia.
    + apply Forall_forall. intros y Hy.
      apply in_map_iff in Hy. destruct Hy as (j & <- & Hj).
      apply in_seq in Hj. apply Hg; lia.
Qed.

(** *** Floats that are not negative, or not positive *)

Lemma fl_nonneg (x : Q) :
  0 <= x ->
  0 <= round64 x
  /\ (fl x = Finite (round64 x) \/ fl x = Infinity false).
Proof.
  intros Hx. pose proof (round64_nonneg x Hx) as Hr. split; [exact Hr|].
  unfold fl. cbv zeta. destruct (Qle_bool (2 ^ 1024) _); [right|left; reflexivity].
  apply Qle_bool_iff in Hr. rewrite Hr. reflexivity.
Qed.

Lemma fl_nonpos (x : Q) :
  x <= 0 ->
  round64 x <= 0
  /\ (fl x = Finite (round64 x) \/ fl x = Infinity true).
Proof.
  intros Hx. pose proof (round64_nonpos x Hx) as Hr. split; [exact Hr|].
  unfold fl. cbv zeta.
  destruct (Qle_bool (2 ^ 1024) _) eqn:Hb; [right|left; reflexivity].
  destruct (Qle_bool 0 (round64 x)) eqn:H0; [exfalso|reflexivity].
  apply Qle_bool_iff in Hb, H0.
  assert (E : round64 x == 0) by lra.
  rewrite E in Hb. pose proof (pow2_pos 1024) as Hp.
  change (Qabs 0) with 0 in Hb. lra.
Qed.

Lemma fl_Finite (x r : Q) : fl x = Finite r -> r = round64 x.
Proof.
  unfold fl. cbv zeta. destruct (Qle_bool _ _); intros H;
    [discriminate H | injection H as <-; reflexivity].
Qed.

Lemma fl_never_NaN (x : Q) : fl x <> NaN.
Proof.
  unfold fl. cbv zeta. destruct (Qle_bool _ _); discriminate.
Qed.

Lemma scale_pyramid_shape4 (self : MTCNN) (n c width height : Z) (px : list Q) :
  ~ min_face_size self == 0 ->
  scale_pyramid self (mkTensor [n; c; width; height] px)
  = let m := fl (min_detection_size / min_face_size self) in
    match m, fmul (of_int (Z.min height width)) m with
    | Finite m, Finite min_length =>
        match scales_loop (scales_fuel min_length) m min_length 0 [] with
        | Some scales => Ok scales
        | None => Raise NeverReturns
        end
    | _, Infinity false => Raise NeverReturns
    | _, _ => Ok []
    end.
Proof.
  intros Hne. unfold scale_pyramid. cbn [shape skipn unpack2].
  destruct (Qeq_bool (min_face_size self) 0) eqn:Heq.
  - apply Qeq_bool_eq in Heq. contradiction.
  - cbv zeta. destruct (fl (min_detection_size / min_face_size self));
      reflexivity.
Qed.

(** The pyramid when the loop is entered with finite numbers. *)
Lemma scale_pyramid_finite (self : MTCNN) (n c width height : Z) (px : list Q)
  (m x : Q) :
  ~ min_face_size self == 0 ->
  fl (min_detection_size / min_face_size self) = Finite m ->
  fmul (of_int (Z.min height width)) (Finite m) = Finite x ->
  exists K : nat,
    scale_pyramid self (mkTensor [n; c; width; height] px)
    = Ok (map (pyramid_scale m) (seq 0 K))
    /\ (forall k, (k < K)%nat -> min_detection_size < min_length_at x k)
    /\ min_length_at x K <= min_detection_size.
Proof.
  intros Hne Hm Hx.
  rewrite (scale_pyramid_shape4 self n c width height px Hne). cbv zeta.
  rewrite Hm, Hx.
  destruct (scales_loop_spec (scales_fuel x) m x 0 [] (le_n _))
    as (K & Heq & Hlt & Hend).
  exists K. rewrite Heq. cbn [app Nat.add]. repeat split; assumption.
Qed.

(** An image with no positive side has an empty pyramid. *)
Lemma scale_pyramid_nonpos (self : MTCNN) (n c width height : Z) (px : list Q) :
  0 < min_face_size self ->
  (Z.min height width <= 0)%Z ->
  scale_pyramid self (mkTensor [n; c; width; height] px) = Ok [].
Proof.
  intros Hpos HL.
  assert (Hne : ~ min_face_size self == 0)
    by (intro H0; rewrite H0 in Hpos; discriminate).
  rewrite (scale_pyramid_shape4 self n c width height px Hne). cbv zeta.
  assert (Hq : 0 <= min_detection_size / min_face_size self).
  { unfold min_detection_size. apply Qle_shift_div_l; [exact Hpos | lra]. }
  assert (Hl : inject_Z (Z.min height width) <= 0).
  { change 0 with (inject_Z 0). rewrite <- Zle_Qle. exact HL. }
  destruct (fl_nonneg _ Hq) as [Hm Hfm].
  unfold of_int. destruct (fl_nonpos _ Hl) as [Hr Hfl].
  set (m := round64 (min_detection_size / _)) in *.
  set (l := round64 (inject_Z _)) in *.
  destruct Hfm as [-> | ->]; destruct Hfl as [-> | ->]; cbn [fmul xorb].
  - assert (Hlm : l * m <= 0) by nra.
    destruct (fl_nonpos _ Hlm) as [Hp [-> | ->]]; [|reflexivity].
    rewrite scales_loop_exit; [reflexivity|].
    unfold min_detection_size. lra.
  - apply Qle_bool_iff in Hm. rewrite Hm. cbn [negb xorb].
    destruct (Qeq_bool m 0); reflexivity.
  - destruct (Qeq_bool l 0) eqn:Hz; [reflexivity|].
    destruct (Qle_bool 0 l) eqn:H0; [exfalso|reflexivity].
    apply Qle_bool_iff in H0. apply Qeq_bool_neq in Hz. apply Hz. lra.
  - reflexivity.
Qed.

(** *** Powers *)

Lemma Qpow_S (a : Q) (k : nat) :
  ~ a == 0 -> a ^ Z.of_nat (S k) == a ^ Z.of_nat k * a.
Proof.
  intros Ha. rewrite Nat2Z.inj_succ. unfold Z.succ.
  rewrite Qpower_plus by exact Ha. rewrite Qpower_1_r. reflexivity.
Qed.

Lemma Qpow_decr (a : Q) (i j : nat) :
  0 < a -> a <= 1 -> (i <= j)%nat -> a ^ Z.of_nat j <= a ^ Z.of_nat i.
Proof.
  intros Ha Ha1 Hij. induction Hij as [|j Hij IH]; [apply Qle_refl|].
  rewrite Qpow_S by lra.
  pose proof (Qpower_0_lt a (Z.of_nat j) Ha) as Hp.
  set (p := a ^ Z.of_nat j) in *. nra.
Qed.

Lemma Qpow_incr (a : Q) (i j : nat) :
  1 <= a -> (i <= j)%nat -> a ^ Z.of_nat i <= a ^ Z.of_nat j.
Proof.
  intros Ha Hij. apply Qpower_le_compat_l; [lia | exact Ha].
Qed.

(** Two turns of the loop at least halve, when [2 * a^2 <= 1]. *)
Lemma Qpow_double (a : Q) (j : nat) :
  0 < a -> 2 * (a * a) <= 1 -> 2 ^ Z.of_nat j * a ^ Z.of_nat (2 * j) <= 1.
Proof.
  intros Ha H2. induction j as [|j IH].
  - cbn. discriminate.
  - replace (2 * S j)%nat with (S (S (2 * j))) by lia.
    rewrite !Qpow_S by lra.
    pose proof (Qpower_0_lt a (Z.of_nat (2 * j)) Ha) as Hp.
    pose proof (pow2_pos (Z.of_nat j)) as Hq.
    set (p := 2 ^ Z.of_nat j) in *. set (b := a ^ Z.of_nat (2 * j)) in *.
    assert (Hab : 0 <= p * b) by nra.
    setoid_replace (p * 2 * (b * a * a)) with ((p * b) * (2 * (a * a))) by ring.
    nra.
Qed.

(** *** Numbers *)

Lemma round64_normal : round64 (2 ^ (-1022)) <= 2 ^ (-1022).
Proof. apply Qle_bool_iff. vm_compute. reflexivity. Qed.

Lemma round64_1 : round64 1 <= 1.
Proof. apply Qle_bool_iff. vm_compute. reflexivity. Qed.

Lemma round64_small (y : Q) :
  0 <= y -> y <= 2 ^ (-1022) -> round64 y <= 2 ^ (-1022).
Proof.
  intros H0 Hy. eapply Qle_trans; [apply round64_le; eassumption|].
  exact round64_normal.
Qed.

(** Rounding up, away from the subnormal range or within it. *)
Lemma round64_upper (y : Q) :
  0 <= y -> round64 y <= y + y * eps64 \/ round64 y <= 2 ^ (-1022).
Proof.
  intros H0. destruct (Qlt_le_dec y (2 ^ (-1022))) as [Hs|Hn].
  - right. apply round64_small; lra.
  - left. apply round64_error. exact Hn.
Qed.

(** What rounds to more than 1 is away from the subnormal range. *)
Lemma round64_gt_1 (y : Q) :
  0 <= y -> 1 < round64 y -> 2 ^ (-1022) <= y.
Proof.
  intros H0 Hr. apply Qnot_lt_le. intros Hs.
  pose proof (round64_small y H0 (Qlt_le_weak _ _ Hs)) as H.
  pose proof normal_le_1. lra.
Qed.

(** *** The running [min_length] *)

Lemma min_length_at_upper (x : Q) (k : nat) :
  (forall i, (i < k)%nat -> min_detection_size < min_length_at x i) ->
  min_length_at x k <= x * (factor * (1 + 2 ^ (-52))) ^ Z.of_nat k.
Proof.
  induction k as [|k IH]; intros Hall.
  - cbn [min_length_at]. change (_ ^ Z.of_nat 0) with 1. lra.
  - cbn [min_length_at].
    assert (Hk : min_detection_size < min_length_at x k) by (apply Hall; lia).
    specialize (IH ltac:(intros i Hi; apply Hall; lia)).
    unfold min_detection_size in Hk.
    assert (Hg : ~ factor * (1 + 2 ^ (-52)) == 0).
    { rewrite factor_eq. intro H. vm_compute in H. discriminate H. }
    rewrite Qpow_S by exact Hg.
    assert (Hgp : 0 < (factor * (1 + 2 ^ (-52))) ^ Z.of_nat k).
    { apply Qpower_0_lt. rewrite factor_eq. reflexivity. }
    pose proof normal_le_1 as Hn.
    assert (Hy : 2 ^ (-1022) <= min_length_at x k * factor)
      by (rewrite factor_eq; lra).
    pose proof (round64_error _ Hy) as [_ Hup].
    set (p := min_length_at x k) in *.
    set (G := (factor * (1 + 2 ^ (-52))) ^ Z.of_nat k) in *.
    set (r := round64 (p * factor)) in *.
    assert (E52 : 2 ^ (-52) == 1 # 4503599627370496) by reflexivity.
    rewrite E52. rewrite factor_eq, eps64_eq in *.
    assert (H1 : r <= p * ((6368089873101881 # 9007199254740992)
                           * (1 + (1 # 4503599627370496)))) by lra.
    assert (H2 : p * ((6368089873101881 # 9007199254740992)
                      * (1 + (1 # 4503599627370496)))
                 <= x * G * ((6368089873101881 # 9007199254740992)
                             * (1 + (1 # 4503599627370496)))).
    { apply Qmult_le_compat_r; [exact IH|]. discriminate. }
    lra.
Qed.

(** The loop is left within [2 * j + 1] turns when it is entered with at
    most [12 * 2^j], give or take the rounding. *)
Lemma min_length_at_turns (x : Q) (K j : nat) :
  x <= 12 * 2 ^ Z.of_nat j * (1 + 2 ^ (-50)) ->
  (forall i, (i < K)%nat -> min_detection_size < min_length_at x i) ->
  (K <= 2 * j + 1)%nat.
Proof.
  intros Hx Hall.
  destruct (Nat.le_gt_cases K (2 * j + 1)) as [Hle|Hgt]; [exact Hle|exfalso].
  pose proof (Hall (2 * j + 1)%nat Hgt) as Hbig.
  pose proof (min_length_at_upper x (2 * j + 1)
                ltac:(intros i Hi; apply Hall; lia)) as Hup.
  unfold min_detection_size in Hbig.
  assert (Hg0 : 0 < factor * (1 + 2 ^ (-52))).
  { rewrite factor_eq. reflexivity. }
  assert (Hg2 : 2 * (factor * (1 + 2 ^ (-52)) * (factor * (1 + 2 ^ (-52)))) <= 1).
  { rewrite factor_eq. apply Qle_bool_iff. vm_compute. reflexivity. }
  pose proof (Qpow_double _ j Hg0 Hg2) as Hd.
  replace (2 * j + 1)%nat with (S (2 * j)) in Hup, Hbig by lia.
  rewrite Qpow_S in Hup by lra.
  pose proof (Qpower_0_lt _ (Z.of_nat (2 * j)) Hg0) as Hp.
  pose proof (pow2_pos (Z.of_nat j)) as Hq.
  assert (Hgv : factor * (1 + 2 ^ (-52)) <= 7071 # 10000).
  { rewrite factor_eq. apply Qle_bool_iff. vm_compute. reflexivity. }
  assert (Hc : 1 + 2 ^ (-50) <= 10001 # 10000).
  { apply Qle_bool_iff. vm_compute. reflexivity. }
  assert (Hc0 : 1 <= 1 + 2 ^ (-50)).
  { apply Qle_bool_iff. vm_compute. reflexivity. }
  set (g := factor * (1 + 2 ^ (-52))) in *.
  set (G := g ^ Z.of_nat (2 * j)) in *.
  set (P := 2 ^ Z.of_nat j) in *.
  set (c := 1 + 2 ^ (-50)) in *.
  set (p := min_length_at x (S (2 * j))) in *.
  assert (H1 : x * G <= 12 * c).
  { assert (H : x * G <= 12 * P * c * G)
      by (apply Qmult_le_compat_r; lra).
    assert (H' : 12 * c * (P * G) <= 12 * c * 1).
    { rewrite !(Qmult_comm (12 * c)). apply Qmult_le_compat_r; lra. }
    lra. }
  assert (H2 : x * G * g <= 12 * c * g)
    by (apply Qmult_le_compat_r; lra).
  assert (H3 : 12 * c * g <= 12 * (10001 # 10000) * (7071 # 10000)) by nra.
  lra.
Qed.

(** *** The start of the loop *)

Lemma round64_int_bounds (L : Z) :
  (0 < L < 2 ^ 63)%Z ->
  let l := round64 (inject_Z L) in
  0 < l /\ l <= inject_Z L + inject_Z L * eps64 /\ l <= 2 ^ 63
  /\ of_int L = Finite l.
Proof.
  intros [H0 H63] l.
  assert (HL1 : 1 <= inject_Z L).
  { change 1 with (inject_Z 1). rewrite <- Zle_Qle. lia. }
  assert (HL63 : inject_Z L <= 2 ^ 63).
  { rewrite <- pow2_Z by lia. rewrite <- Zle_Qle. lia. }
  pose proof normal_le_1 as Hn.
  pose proof (round64_error (inject_Z L) ltac:(lra)) as [Hlo Hup].
  fold l in Hlo, Hup. rewrite eps64_eq in *.
  assert (Hl63 : l <= 2 ^ 63).
  { eapply Qle_trans; [apply round64_le; [lra | exact HL63]|].
    apply Qle_bool_iff. vm_compute. reflexivity. }
  repeat split; try lra.
  unfold of_int. apply fl_finite. fold l.
  rewrite Qabs_pos by lra.
  eapply Qle_lt_trans; [exact Hl63|].
  apply Qlt_alt. vm_compute. reflexivity.
Qed.

(** With a positive side below [2^63] and [min_face_size] at least
    [2^-900], nothing overflows. *)
Lemma pyramid_start_finite (mfs : Q) (L : Z) :
  2 ^ (-900) <= mfs -> (0 < L < 2 ^ 63)%Z ->
  let m := round64 (min_detection_size / mfs) in
  let l := round64 (inject_Z L) in
  0 <= m
  /\ fl (min_detection_size / mfs) = Finite m
  /\ fmul (of_int L) (Finite m) = Finite (round64 (l * m)).
Proof.
  intros Hmfs HL m l.
  pose proof (pow2_pos (-900)) as H900.
  assert (Hpos : 0 < mfs) by lra.
  assert (Hq0 : 0 <= min_detection_size / mfs).
  { unfold min_detection_size. apply Qle_shift_div_l; [exact Hpos | lra]. }
  assert (Hq : min_detection_size / mfs <= 12 * 2 ^ 900).
  { unfold min_detection_size. apply Qle_shift_div_r; [exact Hpos|].
    assert (E : 2 ^ 900 * 2 ^ (-900) == 1) by reflexivity.
    assert (H : 12 * 2 ^ 900 * 2 ^ (-900) <= 12 * 2 ^ 900 * mfs).
    { rewrite !(Qmult_comm (12 * 2 ^ 900)).
      apply Qmult_le_compat_r; [exact Hmfs|].
      pose proof (pow2_pos 900). lra. }
    rewrite <- Qmult_assoc, E in H. lra. }
  assert (Hm0 : 0 <= m) by (apply round64_nonneg; exact Hq0).
  assert (Hm : m <= 2 ^ 904).
  { eapply Qle_trans; [apply round64_le; [exact Hq0 | exact Hq]|].
    apply Qle_bool_iff. vm_compute. reflexivity. }
  destruct (round64_int_bounds L HL) as (Hl0 & _ & Hl63 & Hof).
  fold l in Hl0, Hl63, Hof.
  split; [exact Hm0|]. split.
  - apply fl_finite. fold m. rewrite Qabs_pos by exact Hm0.
    eapply Qle_lt_trans; [exact Hm|].
    apply Qlt_alt. vm_compute. reflexivity.
  - rewrite Hof. cbn [fmul]. apply fl_finite.
    assert (Hlm0 : 0 <= l * m) by nra.
    rewrite Qabs_pos by (apply round64_nonneg; exact Hlm0).
    assert (Hlm : l * m <= 2 ^ 63 * 2 ^ 904).
    { pose proof (pow2_pos 63). pose proof (pow2_pos 904).
      set (a := 2 ^ 63) in *. set (b := 2 ^ 904) in *. nra. }
    eapply Qle_lt_trans; [apply round64_le; [exact Hlm0 | exact Hlm]|].
    eapply Qle_lt_trans with (2 ^ 967);
      [apply Qle_bool_iff | apply Qlt_alt]; vm_compute; reflexivity.
Qed.

(** When the loop is entered at all, its start is the exact product up to
    three roundings. *)
Lemma pyramid_start_bound (mfs : Q) (L : Z) :
  0 < mfs -> (0 < L < 2 ^ 63)%Z ->
  let m := round64 (min_detection_size / mfs) in
  let l := round64 (inject_Z L) in
  let x := round64 (l * m) in
  min_detection_size < x ->
  0 < m
  /\ x <= 2 ^ 64 * m
  /\ x <= inject_Z L * (min_detection_size / mfs) * (1 + 2 ^ (-50)).
Proof.
  intros Hpos HL m l x Hx. unfold min_detection_size in *.
  destruct (round64_int_bounds L HL) as (Hl0 & Hlup & Hl63 & _).
  fold l in Hl0, Hlup, Hl63.
  assert (HL1 : 1 <= inject_Z L).
  { change 1 with (inject_Z 1). rewrite <- Zle_Qle. lia. }
  assert (Hq0 : 0 < 12 / mfs).
  { apply Qlt_shift_div_l; [exact Hpos | lra]. }
  assert (Hm0 : 0 <= m) by (apply round64_nonneg; lra).
  assert (Hlm0 : 0 <= l * m) by nra.
  pose proof normal_le_1 as Hn.
  assert (E64 : 2 ^ 64 * 2 ^ (-1022) <= 1).
  { apply Qle_bool_iff. vm_compute. reflexivity. }
  assert (E63 : 2 ^ 63 <= 2 ^ 64).
  { apply pow2_le. lia. }
  pose proof (pow2_pos 63) as P63. pose proof (pow2_pos (-1022)) as Pn.
  (* the product is away from the subnormal range *)
  assert (Hlm : 2 ^ (-1022) <= l * m).
  { apply round64_gt_1; [exact Hlm0 | fold x; lra]. }
  pose proof (round64_error _ Hlm) as [_ Hxup]. fold x in Hxup.
  (* and so is [12 / min_face_size] *)
  assert (Hqn : 2 ^ (-1022) <= 12 / mfs).
  { apply Qnot_lt_le. intros Hs.
    assert (Hms : m <= 2 ^ (-1022)) by (apply round64_small; lra).
    assert (H1 : l * m <= 2 ^ 64 * 2 ^ (-1022)).
    { set (a := 2 ^ 63) in *. set (b := 2 ^ 64) in *.
      set (t := 2 ^ (-1022)) in *. nra. }
    assert (H2 : x <= 1).
    { eapply Qle_trans; [apply round64_le; [exact Hlm0|]|exact round64_1].
      lra. }
    lra. }
  pose proof (round64_error _ Hqn) as [Hmlo Hmup]. fold m in Hmlo, Hmup.
  rewrite eps64_eq in *.
  assert (E50 : 2 ^ (-50) == 1 # 1125899906842624) by reflexivity.
  assert (E64' : 2 ^ 64 == 18446744073709551616) by reflexivity.
  assert (E63' : 2 ^ 63 == 9223372036854775808) by reflexivity.
  set (q := 12 / mfs) in *. set (N := inject_Z L) in *.
  assert (Hm1 : 0 < m) by lra.
  assert (T1 : l * m <= (N + N * (1 # 9007199254740992)) * m)
    by (apply Qmult_le_compat_r; lra).
  assert (T2 : N * m <= N * (q + q * (1 # 9007199254740992))).
  { rewrite !(Qmult_comm N). apply Qmult_le_compat_r; lra. }
  assert (T3 : l * m <= 2 ^ 63 * m) by (apply Qmult_le_compat_r; lra).
  assert (T4 : 0 <= N * q) by nra.
  split; [exact Hm1|]. split.
  - rewrite E64'. rewrite E63' in T3. nra.
  - rewrite E50. nra.
Qed.

(** *** The scales strictly decrease *)

Lemma Qpow_mono (a b : Q) (k : nat) :
  0 <= a -> a <= b -> a ^ Z.of_nat k <= b ^ Z.of_nat k.
Proof.
  intros Ha Hab. induction k as [|k IH]; [apply Qle_refl|].
  destruct (Qeq_dec a 0) as [Ha0|Ha0].
  - rewrite Ha0. rewrite Nat2Z.inj_succ. unfold Z.succ.
    assert (E : 0 ^ (Z.of_nat k + 1) == 0).
    { destruct (Z.of_nat k + 1)%Z eqn:Hz; try lia.
      cbn [Qpower]. apply Qpower_positive_0. }
    rewrite E. apply Qpower_0_le. lra.
  - rewrite !Qpow_S by lra.
    pose proof (Qpower_0_le a (Z.of_nat k) Ha) as Hp.
    set (p := a ^ Z.of_nat k) in *. set (q := b ^ Z.of_nat k) in *. nra.
Qed.

(** Up to the 1927th, the powers of [factor] are away from the subnormal
    range: [1927 = 47 * 41]. *)
Lemma factor_pow_normal (k : nat) :
  (k <= 1927)%nat -> 2 ^ (-1022) <= factor ^ Z.of_nat k.
Proof.
  intros Hk. apply Qle_trans with (factor ^ Z.of_nat 1927).
  - change (Z.of_nat 1927) with (47 * Z.of_nat 41)%Z. rewrite Qpower_mult.
    apply Qle_trans with ((2 ^ (-24)) ^ Z.of_nat 41).
    + apply Qle_bool_iff. vm_compute. reflexivity.
    + apply Qpow_mono; [discriminate|].
      rewrite factor_eq. apply Qle_bool_iff. vm_compute. reflexivity.
  - apply Qpow_decr; [exact factor_pos | | exact Hk].
    rewrite factor_eq. discriminate.
Qed.

Lemma roundings_pow (k : nat) :
  (k <= 1927)%nat -> (1 + 2 ^ (-52)) ^ Z.of_nat k <= 2.
Proof.
  intros Hk. apply Qle_trans with ((1 + 2 ^ (-52)) ^ Z.of_nat 1927).
  - apply Qpow_incr; [discriminate | exact Hk].
  - change (Z.of_nat 1927) with (47 * Z.of_nat 41)%Z. rewrite Qpower_mult.
    apply Qle_trans with ((1 + 2 ^ (-46)) ^ Z.of_nat 41).
    + apply Qpow_mono.
      * apply Qpower_0_le. discriminate.
      * apply Qle_bool_iff. vm_compute. reflexivity.
    + apply Qle_bool_iff. vm_compute. reflexivity.
Qed.

Lemma pyramid_scale_decr (m x : Q) (K k : nat) :
  0 < m -> x <= 2 ^ 64 * m -> (K <= 1927)%nat ->
  (forall i, (i < K)%nat -> min_detection_size < min_length_at x i) ->
  (S k < K)%nat ->
  pyramid_scale m (S k) < pyramid_scale m k.
Proof.
  intros Hm Hx HK Hall Hk. unfold pyramid_scale.
  pose proof (factor_pow_normal k ltac:(lia)) as Hn.
  pose proof (factor_pow_normal (S k) ltac:(lia)) as Hn'.
  pose proof (round64_error _ Hn) as [Hrlo Hrup].
  pose proof (round64_error _ Hn') as [_ Hrup'].
  pose proof (Qpow_S factor k factor_neq0) as HS.
  pose proof (factor_pow_pos k) as HF.
  (* the running product is still above 12 *)
  assert (Hbig : min_detection_size < min_length_at x k) by (apply Hall; lia).
  pose proof (min_length_at_upper x k ltac:(intros i Hi; apply Hall; lia))
    as Hup.
  rewrite Qmult_power in Hup.
  pose proof (roundings_pow k ltac:(lia)) as Hc.
  assert (Hc0 : 0 < (1 + 2 ^ (-52)) ^ Z.of_nat k)
    by (apply Qpower_0_lt; reflexivity).
  unfold min_detection_size in Hbig.
  assert (E64 : 2 ^ 64 == 18446744073709551616) by reflexivity.
  assert (Et : 2 ^ (-1022) <= 1 # 18446744073709551616000).
  { apply Qle_bool_iff. vm_compute. reflexivity. }
  pose proof (pow2_pos (-1022)) as Pn.
  set (F := factor ^ Z.of_nat k) in *.
  set (C := (1 + 2 ^ (-52)) ^ Z.of_nat k) in *.
  set (p := min_length_at x k) in *.
  set (r := round64 F) in *.
  set (F' := factor ^ Z.of_nat (S k)) in *.
  set (r' := round64 F') in *.
  set (t := 2 ^ (-1022)) in *.
  rewrite eps64_eq, factor_eq in *.
  (* [12 < 2 * 2^64 * m * F] *)
  assert (HxF : x * (F * C) <= x * (F * 2)).
  { assert (HFC : 0 < F * C) by (apply Qmult_lt_0_compat; assumption).
    assert (Hx0 : 0 <= x).
    { destruct (Qlt_le_dec x 0) as [Hneg|Hok]; [exfalso|exact Hok].
      set (FC := F * C) in *. nra. }
    assert (F * C <= F * 2).
    { rewrite !(Qmult_comm F). apply Qmult_le_compat_r; lra. }
    rewrite !(Qmult_comm x). apply Qmult_le_compat_r; lra. }
  assert (HW : x * F <= 2 ^ 64 * m * F)
    by (apply Qmult_le_compat_r; lra).
  assert (HmF : 12 < 2 * (18446744073709551616 * (m * F))).
  { rewrite E64 in HW. lra. }
  (* the exact products *)
  assert (A1 : m * (F - F * (1 # 9007199254740992)) <= m * r).
  { rewrite !(Qmult_comm m). apply Qmult_le_compat_r; lra. }
  assert (A2 : m * r'
               <= m * (F * (6368089873101881 # 9007199254740992)
                       + F * (6368089873101881 # 9007199254740992)
                         * (1 # 9007199254740992))).
  { rewrite !(Qmult_comm m). apply Qmult_le_compat_r; lra. }
  set (W := m * F) in *.
  assert (B1 : W - W * (1 # 9007199254740992) <= m * r) by (unfold W; lra).
  assert (B2 : m * r'
               <= W * (6368089873101881 # 9007199254740992)
                  + W * (6368089873101881 # 9007199254740992)
                    * (1 # 9007199254740992)) by (unfold W; lra).
  assert (Ha : 2 ^ (-1022) <= m * r) by (fold t; lra).
  pose proof (round64_error _ Ha) as [Hglo _].
  rewrite eps64_eq in Hglo.
  assert (Ha'0 : 0 <= m * r').
  { assert (0 <= r') by (apply round64_nonneg, Qpower_0_le; discriminate).
    nra. }
  destruct (round64_upper _ Ha'0) as [Hg'|Hg'].
  - rewrite eps64_eq in Hg'.
    set (g := round64 (m * r)) in *. set (g' := round64 (m * r')) in *.
    set (a := m * r) in *. set (a' := m * r') in *.
    lra.
  - fold t in Hg'.
    set (g := round64 (m * r)) in *. set (g' := round64 (m * r')) in *.
    set (a := m * r) in *.
    lra.
Qed.

Lemma pyramid_scale_sorted (m x : Q) (K : nat) :
  0 < m -> x <= 2 ^ 64 * m -> (K <= 1927)%nat ->
  (forall i, (i < K)%nat -> min_detection_size < min_length_at x i) ->
  StronglySorted (fun a b => b < a) (map (pyramid_scale m) (seq 0 K)).
Proof.
  intros Hm Hx HK Hall. apply decreasing_map_seq.
  intros i j [_ Hij] Hj. cbn [Nat.add] in Hj.
  induction Hij as [|j Hij IH].
  - apply (pyramid_scale_decr m x K i Hm Hx HK Hall). lia.
  - eapply Qlt_trans; [|apply IH; lia].
    apply (pyramid_scale_decr m x K j Hm Hx HK Hall). lia.
Qed.

(** C2, as the code has it.  Take an image whose smaller side [L] is below
    [2^63] and a [min_face_size] of at least [2^-900], so that nothing
    overflows.  The pyramid built by [forward] is exactly the rounded
    [m * factor^k] for [k = 0 .. K-1], where [m] is the rounded
    [12 / min_face_size], [factor] is the float [0.707], and [K] is the first
    [k] at which the running [min_length] - the rounded [L * m], multiplied
    by [factor] and rounded once per turn - is at most 12.  The scales
    strictly decrease (so no two are equal), and there are at most
    [2 * j + 1] of them as soon as [L <= min_face_size * 2^j]. *)
Theorem scale_pyramid_geometric
  (self : MTCNN) (n c width height : Z) (px : list Q) :
  2 ^ (-900) <= min_face_size self ->
  (Z.min height width < 2 ^ 63)%Z ->
  let L := Z.min height width in
  let m := round64 (min_detection_size / min_face_size self) in
  let x := round64 (round64 (inject_Z L) * m) in
  exists K : nat,
    scale_pyramid self (mkTensor [n; c; width; height] px)
    = Ok (map (pyramid_scale m) (seq 0 K))
    /\ (forall k, (k < K)%nat -> min_detection_size < min_length_at x k)
    /\ min_length_at x K <= min_detection_size
    /\ StronglySorted (fun a b => b < a) (map (pyramid_scale m) (seq 0 K))
    /\ (forall j : nat,
           inject_Z L <= min_face_size self * 2 ^ Z.of_nat j ->
           (K <= 2 * j + 1)%nat).
Proof.
  intros Hmfs H63 L m x.
  pose proof (pow2_pos (-900)) as H900.
  assert (Hpos : 0 < min_face_size self) by lra.
  assert (Hne : ~ min_face_size self == 0) by lra.
  destruct (Z.le_gt_cases L 0) as [Hle|Hgt].
  - (* no positive side: the loop is not entered *)
    exists 0%nat. cbn [seq map].
    rewrite (scale_pyramid_nonpos self n c width height px Hpos Hle).
    assert (Hx : x <= 0).
    { apply round64_nonpos.
      assert (Hl : round64 (inject_Z L) <= 0).
      { apply round64_nonpos. change 0 with (inject_Z 0).
        rewrite <- Zle_Qle. exact Hle. }
      assert (Hm : 0 <= m).
      { apply round64_nonneg. unfold min_detection_size.
        apply Qle_shift_div_l; [exact Hpos | lra]. }
      set (l := round64 (inject_Z L)) in *. nra. }
    split; [reflexivity|]. split; [intros k Hk; lia|].
    split; [cbn [min_length_at]; unfold min_detection_size; lra|].
    split; [constructor | intros; lia].
  - assert (HL : (0 < L < 2 ^ 63)%Z) by (split; [lia | exact H63]).
    destruct (pyramid_start_finite (min_face_size self) L Hmfs HL)
      as (Hm0 & Hfm & Hfx).
    fold m in Hm0, Hfm, Hfx. fold x in Hfx.
    destruct (scale_pyramid_finite self n c width height px m x Hne Hfm Hfx)
      as (K & Heq & Hlt & Hend).
    exists K. split; [exact Heq|]. split; [exact Hlt|]. split; [exact Hend|].
    destruct K as [|K'].
    { split; [constructor | intros; lia]. }
    set (K := S K') in *.
    assert (Hx12 : min_detection_size < x) by (apply (Hlt 0%nat); unfold K; lia).
    destruct (pyramid_start_bound (min_face_size self) L Hpos HL Hx12)
      as (Hm1 & Hx64 & Hxq).
    fold m in Hm1, Hx64. fold x in Hx64, Hxq.
    assert (Hturns : forall j : nat,
               inject_Z L <= min_face_size self * 2 ^ Z.of_nat j ->
               (K <= 2 * j + 1)%nat).
    { intros j Hj. apply (min_length_at_turns x K j); [|exact Hlt].
      eapply Qle_trans; [exact Hxq|].
      apply Qmult_le_compat_r; [|apply Qle_bool_iff; vm_compute; reflexivity].
      unfold min_detection_size.
      setoid_replace (inject_Z L * (12 / min_face_size self))
        with (12 * (inject_Z L / min_face_size self)) by (field; exact Hne).
      assert (inject_Z L / min_face_size self <= 2 ^ Z.of_nat j).
      { apply Qle_shift_div_r; [exact Hpos|]. lra. }
      lra. }
    split; [|exact Hturns].
    apply (pyramid_scale_sorted m x K Hm1 Hx64); [|exact Hlt].
    replace 1927%nat with (2 * 963 + 1)%nat by reflexivity.
    apply Hturns.
    assert (H1 : inject_Z L <= 2 ^ 63).
    { rewrite <- pow2_Z by lia. rewrite <- Zle_Qle. lia. }
    assert (H2 : 2 ^ 63 <= min_face_size self * 2 ^ Z.of_nat 963).
    { assert (E : 2 ^ (-900) * 2 ^ Z.of_nat 963 == 2 ^ 63) by reflexivity.
      rewrite <- E. apply Qmult_le_compat_r; [exact Hmfs|].
      apply Qlt_le_weak, pow2_pos. }
    lra.
Qed.

(** ** Running the monad *)

Lemma bind_lift {A B : Type} (r : result A) (f : A -> M B) (log : list event) :
  bind (lift r) f log
  = match r with
    | Ok a => f a log
    | Raise e => (Raise e, log)
    end.
Proof. unfold bind, lift. destruct r; reflexivity. Qed.

Lemma bind_emit {B : Type} (ev : event) (f : unit -> M B) (log : list event) :
  bind (emit ev) f log = f tt (log ++ [ev]).
Proof. reflexivity. Qed.

Lemma bind_ret {A B : Type} (a : A) (f : A -> M B) (log : list event) :
  bind (ret a) f log = f a log.
Proof. reflexivity. Qed.

Lemma bind_assoc {A B C : Type} (m : M A) (f : A -> M B) (g : B -> M C)
  (log : list event) :
  bind (bind m f) g log = bind m (fun a => bind (f a) g) log.
Proof.
  unfold bind. destruct (m log) as [[a|e] log1]; reflexivity.
Qed.

Lemma bind_Ok {A B : Type} (m : M A) (f : A -> M B) (log log' : list event)
  (b : B) :
  bind m f log = (Ok b, log') ->
  exists a log1, m log = (Ok a, log1) /\ f a log1 = (Ok b, log').
Proof.
  unfold bind. destruct (m log) as [[a|e] log1]; intros H.
  - exists a, log1. split; [reflexivity | exact H].
  - discriminate H.
Qed.

(** Unfolds the monad and the collaborator calls. *)
Ltac run_cascade :=
  cbv [bind ret lift emit raise assert
       call_interpolate call_pnet call_generate_bboxes call_nms
       call_calibrate_box call_convert_to_square call_round
       call_to_pil_image call_get_image_boxes call_rnet call_onet
       call_where np_vstack] in *.

(** ** Array indexing *)

Lemma take_length (a : ndarray) (keep : list nat) (r : ndarray) :
  take a keep = Ok r -> length r = length keep.
Proof.
  revert r. induction keep as [|k ks IH]; intros r H; cbn [take] in H.
  - injection H as <-. reflexivity.
  - destruct (nth_error a k) as [row|]; [|discriminate H].
    destruct (take a ks) as [rows|e]; [|discriminate H].
    injection H as <-. cbn [length]. f_equal. apply IH. reflexivity.
Qed.

(** [a[keep][i]] is [a[keep[i]]]. *)
Lemma take_nth_error (a : ndarray) (keep : list nat) (r : ndarray) :
  take a keep = Ok r ->
  forall i k, nth_error keep i = Some k -> nth_error r i = nth_error a k
                                           /\ nth_error a k <> None.
Proof.
  revert r. induction keep as [|k0 ks IH]; intros r H i k Hi; cbn [take] in H.
  - destruct i; discriminate Hi.
  - destruct (nth_error a k0) as [row|] eqn:Hrow; [|discriminate H].
    destruct (take a ks) as [rows|e]; [|discriminate H].
    injection H as <-.
    destruct i as [|i]; cbn [nth_error] in *.
    + injection Hi as <-. rewrite Hrow. split; [reflexivity | discriminate].
    + apply (IH rows eq_refl i k Hi).
Qed.

Lemma col_length (j : nat) (a : ndarray) (v : list Q) :
  col j a = Ok v -> length v = length a.
Proof.
  revert v. induction a as [|row rest IH]; intros v H; cbn [col] in H.
  - injection H as <-. reflexivity.
  - destruct (nth_error row j); [|discriminate H].
    destruct (col j rest) as [xs|e]; [|discriminate H].
    injection H as <-. cbn [length]. f_equal. apply IH. reflexivity.
Qed.

Lemma set_col_length (j : nat) (a : ndarray) (v : list Q) (r : ndarray) :
  set_col j a v = Ok r -> length r = length a /\ length a = length v.
Proof.
  revert v r. induction a as [|row rest IH]; intros [|x xs] r H;
    cbn [set_col] in H; try discriminate H.
  - injection H as <-. split; reflexivity.
  - destruct (set_nth j x row); [|discriminate H].
    destruct (set_col j rest xs) as [rows|e] eqn:Hrest; [|discriminate H].
    injection H as <-. destruct (IH xs rows Hrest) as [H1 H2].
    cbn [length]. split; f_equal; assumption.
Qed.

(** [a[:, j] = v] leaves the first [j] columns of every row alone. *)
Lemma set_col_firstn (j : nat) (a : ndarray) (v : list Q) (r : ndarray) :
  set_col j a v = Ok r ->
  forall i row row', nth_error a i = Some row -> nth_error r i = Some row' ->
                     firstn j row' = firstn j row.
Proof.
  revert v r. induction a as [|row0 rest IH]; intros [|x xs] r H;
    cbn [set_col] in H; try discriminate H.
  - intros [|i] row row' Hi; discriminate Hi.
  - unfold set_nth in H.
    destruct (j <? length row0)%nat eqn:Hj; [|discriminate H].
    destruct (set_col j rest xs) as [rows|e] eqn:Hrest; [|discriminate H].
    injection H as <-. intros [|i] row row' Hi Hi'; cbn [nth_error] in *.
    + injection Hi as <-. injection Hi' as <-.
      apply Nat.ltb_lt in Hj.
      rewrite firstn_app, firstn_firstn, Nat.min_id.
      rewrite length_firstn, Nat.min_l by lia.
      rewrite Nat.sub_diag. cbn [firstn]. apply app_nil_r.
    + eapply IH; eassumption.
Qed.

(** [a[keep]], when it returns, is what [selects] says. *)
Lemma take_selects (a : ndarray) (keep : list nat) (r : ndarray) :
  take a keep = Ok r -> selects keep a r.
Proof.
  intros H. split; [apply (take_length _ _ _ H)|].
  intros i k Hi. destruct (take_nth_error _ _ _ H i k Hi) as [Heq Hsome].
  destruct (nth_error a k) as [row|]; [|contradiction].
  exists row. split; [reflexivity | exact Heq].
Qed.

(** [a[keep]] raises only [IndexError], on an index past the last row. *)
Lemma take_Raise (a : ndarray) (keep : list nat) (e : exn) :
  take a keep = Raise e -> e = IndexError /\ out_of_range keep a.
Proof.
  induction keep as [|k ks IH]; cbn [take]; [discriminate|].
  destruct (nth_error a k) eqn:Hk.
  - destruct (take a ks) as [rows|e']; [discriminate|].
    intros H. injection H as <-. destruct (IH eq_refl) as [-> (k' & Hin & Hle)].
    split; [reflexivity|]. exists k'. split; [right; exact Hin | exact Hle].
  - intros H. injection H as <-. split; [reflexivity|].
    exists k. split; [left; reflexivity|]. apply nth_error_None. exact Hk.
Qed.

Lemma selects_In (keep : list nat) (a r : ndarray) :
  selects keep a r -> forall row, In row r -> In row a.
Proof.
  intros [Hlen Hsel] row Hin.
  apply In_nth_error in Hin. destruct Hin as (i & Hi).
  assert (Hlt : (i < length keep)%nat).
  { rewrite <- Hlen. apply nth_error_Some. rewrite Hi. discriminate. }
  destruct (nth_error keep i) as [k|] eqn:Hk;
    [|apply nth_error_None in Hk; lia].
  destruct (Hsel i k Hk) as (row' & Ha & Hr).
  rewrite Hi in Hr. injection Hr as ->.
  eapply nth_error_In. exact Ha.
Qed.

(** One index list selects as many rows of every array. *)
Lemma selects_same_length (keep : list nat) (a b a' b' : ndarray) :
  selects keep a a' -> selects keep b b' -> length a' = length b'.
Proof.
  intros [Ha _] [Hb _]. congruence.
Qed.

(** ** The proposal stage on one scale *)

Section FirstStage.

Variable E : Env.
Variable self : MTCNN.
Variables (n c width height : Z) (px : list Q).
Variables (scale threshold : Q).

Variables (sw sh : Z).
Hypothesis Hsw : ceil_mul width scale = Ok sw.
Hypothesis Hsh : ceil_mul height scale = Ok sh.

Let image_01 := mkTensor [n; c; width; height] px.
Let size := (sw, sh).
Let resized := F_interpolate E image_01 size "bilinear".
Let outputs := pnet self (normalize self resized).

(** What one call of [run_first_stage] returns and logs. *)
Lemma run_first_stage_run (log : list event) :
  run_first_stage E self image_01 scale threshold log
  = let pre := log ++ [Interpolate size "bilinear"]
                   ++ [PNet (normalize self resized)] in
    match index01 (snd outputs) with
    | Raise e => (Raise e, pre)
    | Ok probs =>
        let boxes := _generate_bboxes E probs (fst outputs) scale threshold in
        if (length boxes =? 0)%nat
        then (Ok None, pre ++ [GenerateBboxes scale threshold])
        else
          let keep := nms E (cols 0 5 boxes) 0.5 "union" in
          (match take boxes keep with
           | Ok kept => Ok (Some kept)
           | Raise e => Raise e
           end,
           pre ++ [GenerateBboxes scale threshold]
               ++ [Nms (cols 0 5 boxes) 0.5 "union"])
    end.
Proof.
  unfold run_first_stage. subst image_01. cbn [shape skipn unpack2].
  run_cascade. rewrite Hsw, Hsh. fold size. fold resized. fold outputs.
  unfold nms_default_mode.
  destruct (index01 (snd outputs)) as [probs|e];
    [|rewrite <- !app_assoc; reflexivity].
  destruct (length _ =? 0)%nat; [rewrite <- !app_assoc; reflexivity|].
  destruct (take _ _); rewrite <- !app_assoc; reflexivity.
Qed.

End FirstStage.
(** ** The three stages, run to completion *)

Section Stages.

Variable E : Env.
Variable self : MTCNN.

Lemma stage1_Ok (image_01 : tensor) (scales : list Q) (log log' : list event)
  (bb : ndarray) :
  stage1 E self image_01 scales log = (Ok bb, log') ->
  exists (runs : list (option ndarray)) (log1 : list event) (kept : ndarray),
    mapM (fun s => run_first_stage E self image_01 s (item0 (thresholds self)))
      scales log = (Ok runs, log1)
    /\ not_none runs <> []
    /\ let merged := concat (not_none runs) in
       let boxes := cols 0 5 merged in
       let thr := item0 (nms_thresholds self) in
       take merged (nms E boxes thr "union") = Ok kept
       /\ let cal := calibrate_box E (cols 0 5 kept) (cols_from 5 kept) in
          let sq := convert_to_square E cal in
          bb = round_cols04 sq
          /\ log' = log1 ++ [Vstack (length (not_none runs));
                             Nms boxes thr "union";
                             CalibrateBox (cols 0 5 kept) (cols_from 5 kept);
                             ConvertToSquare cal;
                             Round sq].
Proof.
  unfold stage1. intros H.
  apply bind_Ok in H. destruct H as (runs & log1 & Hruns & H).
  exists runs, log1. run_cascade. unfold nms_default_mode in H.
  destruct (not_none runs) as [|r rs] eqn:Hnn; [discriminate H|].
  destruct (take _ _) as [kept|e] eqn:Hkept; [|discriminate H].
  exists kept. injection H as <- <-.
  rewrite <- !app_assoc.
  repeat split; solve [assumption | reflexivity | discriminate].
Qed.



Lemma stage3_filter_Ok (bounding_boxes : ndarray) (img_boxes : list tensor)
  (log log' : list event) (bb offs lms : ndarray) :
  stage3_filter self bounding_boxes img_boxes log
  = (Ok (bb, offs, lms), log') ->
  let landmarks := fst (fst (onet self img_boxes)) in
  let offsets := snd (fst (onet self img_boxes)) in
  let probs := snd (onet self img_boxes) in
  let thr := item2 (thresholds self) in
  exists (p1 : list Q) (kept probs_keep : ndarray) (scores : list Q),
    col 1 probs = Ok p1
    /\ take bounding_boxes (where_gt p1 thr 0) = Ok kept
    /\ take probs (where_gt p1 thr 0) = Ok probs_keep
    /\ col 1 probs_keep = Ok scores
    /\ set_col 4 kept scores = Ok bb
    /\ take offsets (where_gt p1 thr 0) = Ok offs
    /\ take landmarks (where_gt p1 thr 0) = Ok lms
    /\ log' = log ++ [ONet (length img_boxes); Where p1 thr].
Proof.
  unfold stage3_filter. run_cascade. intros H.
  destruct (col 1 (snd (onet self img_boxes))) as [p1|e] eqn:Hp1;
    [|discriminate H].
  destruct (take bounding_boxes _) as [kept|e] eqn:Hkept; [|discriminate H].
  destruct (take (snd _) _) as [pk|e] eqn:Hpk; [|discriminate H].
  destruct (col 1 pk) as [scores|e] eqn:Hsc; [|discriminate H].
  destruct (set_col 4 kept scores) as [bb'|e] eqn:Hset; [|discriminate H].
  destruct (take (snd (fst _)) _) as [offs'|e] eqn:Hoffs; [|discriminate H].
  destruct (take (fst (fst _)) _) as [lms'|e] eqn:Hlms; [|discriminate H].
  injection H as <- <- <- <-.
  exists p1, kept, pk, scores.
  rewrite <- !app_assoc. repeat split; assumption.
Qed.

Lemma stage3_suppress_Ok (bounding_boxes offsets landmarks : ndarray)
  (log log' : list event) (bb lms : ndarray) :
  stage3_suppress E self bounding_boxes offsets landmarks log
  = (Ok (bb, lms), log') ->
  let cal := calibrate_box E bounding_boxes offsets in
  let thr := item2 (nms_thresholds self) in
  let keep := nms E cal thr "min" in
  take cal keep = Ok bb
  /\ take landmarks keep = Ok lms
  /\ log' = log ++ [CalibrateBox bounding_boxes offsets; Nms cal thr "min"].
Proof.
  unfold stage3_suppress. run_cascade. intros H.
  destruct (take (calibrate_box _ _ _) _) as [kept|e] eqn:Hkept;
    [|discriminate H].
  destruct (take landmarks _) as [lk|e] eqn:Hlk; [|discriminate H].
  injection H as <- <- <-.
  rewrite <- !app_assoc. repeat split; assumption.
Qed.


(** The whole of stage 3, on either side of its guard. *)
Lemma stage3_Ok (image_pil : pil_image) (bounding_boxes : ndarray)
  (log log' : list event) (bb lms : ndarray) :
  stage3 E self image_pil bounding_boxes log = (Ok (bb, lms), log') ->
  let img_boxes := get_image_boxes E bounding_boxes image_pil 48 in
  let log1 := log ++ [GetImageBoxes bounding_boxes 48] in
  (length img_boxes = 0%nat /\ bb = [] /\ lms = [] /\ log' = log1)
  \/ (length img_boxes <> 0%nat
      /\ exists (fb offs raw points : ndarray) (log2 : list event),
          stage3_filter self bounding_boxes img_boxes log1
          = (Ok (fb, offs, raw), log2)
          /\ compute_landmarks fb raw = Ok points
          /\ stage3_suppress E self fb offs points log2 = (Ok (bb, lms), log')).
Proof.
  unfold stage3. intros H.
  unfold call_get_image_boxes in H.
  rewrite !bind_assoc, bind_emit, bind_ret in H.
  destruct (length _ =? 0)%nat eqn:Hlen.
  - left. apply Nat.eqb_eq in Hlen. injection H as <- <- <-.
    repeat split; assumption.
  - right. apply Nat.eqb_neq in Hlen. split; [exact Hlen|].
    apply bind_Ok in H. destruct H as ([[fb offs] raw] & log2 & Hf & H).
    rewrite bind_lift in H.
    destruct (compute_landmarks fb raw) as [points|e] eqn:Hpts;
      [|discriminate H].
    exists fb, offs, raw, points, log2. repeat split; assumption.
Qed.

End Stages.
(** ** The proposal runs over the pyramid *)

Lemma unpack2_Ok {A : Type} (xs : list A) (a b : A) :
  unpack2 xs = Ok (a, b) -> xs = [a; b].
Proof.
  destruct xs as [|x [|y [|z xs]]]; cbn [unpack2]; intros H;
    try discriminate H.
  injection H as <- <-. reflexivity.
Qed.

Lemma skipn2_pair {A : Type} (xs : list A) (a b : A) :
  skipn 2 xs = [a; b] -> exists n c, xs = [n; c; a; b].
Proof.
  destruct xs as [|n [|c xs]]; cbn [skipn]; intros H; try discriminate H.
  exists n, c. rewrite H. reflexivity.
Qed.

(** [run_first_stage] reads a 4-D image or raises at once. *)
Lemma run_first_stage_shape (E : Env) (self : MTCNN) (image_01 : tensor)
  (scale threshold : Q) (log : list event) :
  (exists n c width height,
      image_01 = mkTensor [n; c; width; height] (data image_01))
  \/ (exists e, run_first_stage E self image_01 scale threshold log
                = (Raise e, log)).
Proof.
  destruct image_01 as [sh px]. cbn [data].
  destruct (unpack2 (skipn 2 sh)) as [[w h]|e] eqn:Hun.
  - left. apply unpack2_Ok in Hun. apply skipn2_pair in Hun.
    destruct Hun as (n & c & ->). exists n, c, w, h. reflexivity.
  - right. exists e. unfold run_first_stage. cbn [shape].
    rewrite bind_lift, Hun. reflexivity.
Qed.

(** ** Landmark points *)

Lemma col_nth_error (j : nat) (a : ndarray) (v : list Q) :
  col j a = Ok v ->
  forall i row, nth_error a i = Some row ->
                exists x, nth_error row j = Some x /\ nth_error v i = Some x.
Proof.
  revert v. induction a as [|row0 rest IH]; intros v H i row Hi;
    cbn [col] in H.
  - destruct i; discriminate Hi.
  - destruct (nth_error row0 j) as [x|] eqn:Hx; [|discriminate H].
    destruct (col j rest) as [xs|e]; [|discriminate H].
    injection H as <-. destruct i as [|i]; cbn [nth_error] in *.
    + injection Hi as <-. exists x. split; [exact Hx | reflexivity].
    + apply (IH xs eq_refl i row Hi).
Qed.

Lemma landmark_rows_Ok (xs ys ws hs : list Q) (landmarks points : ndarray) :
  landmark_rows xs ys ws hs landmarks = Ok points ->
  length points = length landmarks
  /\ forall i x y w h row,
      nth_error xs i = Some x -> nth_error ys i = Some y ->
      nth_error ws i = Some w -> nth_error hs i = Some h ->
      nth_error landmarks i = Some row ->
      nth_error points i = Some (landmark_row x y w h row).
Proof.
  revert ys ws hs landmarks points.
  induction xs as [|x0 xs IH]; intros [|y0 ys] [|w0 ws] [|h0 hs] [|r0 rows] points H;
    cbn [landmark_rows] in H; try discriminate H.
  - injection H as <-. split; [reflexivity|].
    intros [|i] x y w h row Hx; discriminate Hx.
  - destruct (landmark_rows xs ys ws hs rows) as [rows'|e] eqn:Hrec;
      [|discriminate H].
    injection H as <-. destruct (IH ys ws hs rows rows' Hrec) as [Hlen Hnth].
    split; [cbn [length]; f_equal; exact Hlen|].
    intros [|i] x y w h row Hx Hy Hw Hh Hrow; cbn [nth_error] in *.
    + injection Hx as <-. injection Hy as <-. injection Hw as <-.
      injection Hh as <-. injection Hrow as <-. reflexivity.
    + apply Hnth; assumption.
Qed.

Lemma nth_error_diff (a b : list Q) (i : nat) (x y : Q) :
  nth_error a i = Some x -> nth_error b i = Some y ->
  nth_error (map (fun p => fst p - snd p + 1.0) (combine a b)) i
  = Some (x - y + 1.0).
Proof.
  revert b i. induction a as [|a0 a IH]; intros [|b0 b] [|i] Ha Hb;
    cbn [nth_error combine map] in *; try discriminate.
  - injection Ha as <-. injection Hb as <-. reflexivity.
  - apply IH; assumption.
Qed.

Lemma row_from_columns (row : list Q) (x0 y1 x2 y3 : Q) :
  nth_error row 0 = Some x0 -> nth_error row 1 = Some y1 ->
  nth_error row 2 = Some x2 -> nth_error row 3 = Some y3 ->
  exists rest, row = x0 :: y1 :: x2 :: y3 :: rest.
Proof.
  destruct row as [|a [|b [|c [|d rest]]]]; cbn [nth_error];
    intros H0 H1 H2 H3; try discriminate.
  injection H0 as <-. injection H1 as <-. injection H2 as <-.
  injection H3 as <-. exists rest. reflexivity.
Qed.

(** Lines 140-144 use, for row [i], the corners of box [i]. *)
Lemma compute_landmarks_Ok (bounding_boxes landmarks points : ndarray) :
  compute_landmarks bounding_boxes landmarks = Ok points ->
  length points = length bounding_boxes
  /\ length landmarks = length bounding_boxes
  /\ forall i box row,
      nth_error bounding_boxes i = Some box ->
      nth_error landmarks i = Some row ->
      exists xmin ymin xmax ymax rest,
        box = xmin :: ymin :: xmax :: ymax :: rest
        /\ nth_error points i
           = Some (landmark_row xmin ymin (xmax - xmin + 1.0)
                     (ymax - ymin + 1.0) row).
Proof.
  unfold compute_landmarks. intros H.
  destruct (col 2 bounding_boxes) as [x2|e] eqn:H2; [|discriminate H].
  destruct (col 0 bounding_boxes) as [x0|e] eqn:H0; [|discriminate H].
  destruct (col 3 bounding_boxes) as [y3|e] eqn:H3; [|discriminate H].
  destruct (col 1 bounding_boxes) as [y1|e] eqn:H1; [|discriminate H].
  destruct (landmark_rows_Ok _ _ _ _ _ _ H) as [Hlen Hnth].
  assert (Hraw : length landmarks = length bounding_boxes).
  { clear Hnth Hlen. apply col_length in H0. rewrite <- H0. clear - H.
    revert H. generalize (map (fun p => fst p - snd p + 1.0) (combine x2 x0)).
    generalize (map (fun p => fst p - snd p + 1.0) (combine y3 y1)).
    revert y1 landmarks points.
    induction x0 as [|a x0 IH]; intros [|b y1] [|r rows] points [|h hs] [|w ws] H;
      cbn [landmark_rows] in H; try discriminate H; [reflexivity|].
    destruct (landmark_rows x0 y1 ws hs rows) as [rows'|e] eqn:Hrec;
      [|discriminate H].
    cbn [length]. f_equal. eapply IH. exact Hrec. }
  split; [rewrite Hlen; exact Hraw|]. split; [exact Hraw|].
  intros i box row Hbox Hrow.
  destruct (col_nth_error 0 _ _ H0 i box Hbox) as (a0 & Hb0 & Hv0).
  destruct (col_nth_error 1 _ _ H1 i box Hbox) as (a1 & Hb1 & Hv1).
  destruct (col_nth_error 2 _ _ H2 i box Hbox) as (a2 & Hb2 & Hv2).
  destruct (col_nth_error 3 _ _ H3 i box Hbox) as (a3 & Hb3 & Hv3).
  destruct (row_from_columns box a0 a1 a2 a3 Hb0 Hb1 Hb2 Hb3) as (rest & ->).
  exists a0, a1, a2, a3, rest. split; [reflexivity|].
  apply Hnth; try assumption; apply nth_error_diff; assumption.
Qed.

(** Entry [j] of a reprojected row: an x coordinate for [j < 5], a y
    coordinate for [5 <= j < 10]. *)
Lemma landmark_row_nth (xmin ymin width height : Q) (row : list Q) (j : nat)
  (l : Q) :
  nth_error row j = Some l ->
  ((j < 5)%nat ->
   nth_error (landmark_row xmin ymin width height row) j
   = Some (xmin + width * l))
  /\ ((5 <= j < 10)%nat ->
      nth_error (landmark_row xmin ymin width height row) j
      = Some (ymin + height * l)).
Proof.
  intros Hj. unfold landmark_row.
  assert (Hlen : (j < length row)%nat).
  { apply nth_error_Some. rewrite Hj. discriminate. }
  split; intros Hlt.
  - rewrite nth_error_app1
      by (rewrite length_map, length_firstn; lia).
    rewrite nth_error_map, nth_error_firstn.
    destruct (Nat.ltb_spec j 5); [|lia]. rewrite Hj. reflexivity.
  - rewrite nth_error_app2
      by (rewrite length_map, length_firstn; lia).
    rewrite length_map, length_firstn, Nat.min_l by lia.
    rewrite nth_error_app1
      by (rewrite length_map, length_firstn, length_skipn; lia).
    rewrite nth_error_map, nth_error_firstn.
    destruct (Nat.ltb_spec (j - 5) 5); [|lia].
    rewrite nth_error_skipn. replace (5 + (j - 5))%nat with j by lia.
    rewrite Hj. reflexivity.
Qed.

(** ** The batch check and the degenerate pyramids *)

Lemma check_input_4d (n c width height : Z) (px : list Q) (log : list event) :
  let image_01 := mkTensor [n; c; width; height] px in
  check_input image_01 log
  = (if (n =? 1)%Z then Ok image_01
     else Raise (AssertionError
                   "The forward function only accepts a batch size of 1"),
     log).
Proof.
  cbv zeta. unfold check_input. cbn [ndim shape length Z.of_nat Z.eqb Pos.of_succ_nat Pos.succ Pos.eqb].
  run_cascade. cbn [size0 shape].
  destruct (n =? 1)%Z; reflexivity.
Qed.

(** A 3-D image is given a batch dimension of one and passes the check. *)
Lemma check_input_3d (c width height : Z) (px : list Q) (log : list event) :
  check_input (mkTensor [c; width; height] px) log
  = (Ok (mkTensor [1%Z; c; width; height] px), log).
Proof. reflexivity. Qed.

(** With no scale to run, the collection step of stage 1 hands [np.vstack]
    an empty list. *)
Lemma cascade_no_scales (E : Env) (self : MTCNN) (image_01 : tensor)
  (log : list event) :
  scale_pyramid self image_01 = Ok [] ->
  cascade E self image_01 log
  = (Raise (ValueError "need at least one array to concatenate"),
     log ++ [Vstack 0]).
Proof.
  intros Hs. unfold cascade. rewrite bind_lift, Hs. reflexivity.
Qed.

(** The guard of stage 3 (lines 122-124): no crops, empty results. *)
Lemma stage3_no_crops (E : Env) (self : MTCNN) (image_pil : pil_image)
  (bounding_boxes : ndarray) (log : list event) :
  length (get_image_boxes E bounding_boxes image_pil 48) = 0%nat ->
  stage3 E self image_pil bounding_boxes log
  = (Ok ([], []), log ++ [GetImageBoxes bounding_boxes 48]).
Proof.
  intros Hlen. unfold stage3, call_get_image_boxes.
  rewrite !bind_assoc, bind_emit, bind_ret, Hlen. reflexivity.
Qed.

(** C1.  A 10 x 10 image with the default configuration has an empty scale
    pyramid; [detect] then raises numpy's [ValueError] from [np.vstack]
    instead of returning an empty pair, whatever the collaborators are. *)
Theorem detect_small_image_raises (E : Env)
  (pnet : tensor -> tensor * tensor)
  (rnet : list tensor -> ndarray * ndarray)
  (onet : list tensor -> ndarray * ndarray * ndarray) (px : list Q) :
  scale_pyramid (MTCNN_init pnet rnet onet) (mkTensor [1; 3; 10; 10]%Z px)
  = Ok []
  /\ detect E (MTCNN_init pnet rnet onet) (mkTensor [1; 3; 10; 10]%Z px)
     = (Raise (ValueError "need at least one array to concatenate"),
        [Vstack 0]).
Proof.
  assert (Hpyr : scale_pyramid (MTCNN_init pnet rnet onet)
                   (mkTensor [1; 3; 10; 10]%Z px) = Ok [])
    by (vm_compute; reflexivity).
  split; [exact Hpyr|].
  unfold detect, forward. unfold bind at 1. rewrite check_input_4d.
  cbn [Z.eqb Pos.eqb]. apply (cascade_no_scales E _ _ []). exact Hpyr.
Qed.

(** The blank-image scenario of the spec (8.7): no grid position passes the
    threshold on any scale, every proposal run returns [None], and the
    cascade raises as well. *)
Example detect_blank_image_raises :
  fst (detect Stub.env Stub.mtcnn (Stub.uniform 30 30 0))
  = Raise (ValueError "need at least one array to concatenate").
Proof. vm_compute. reflexivity. Qed.

(** C7.  On a 4-D input, [detect] runs the cascade when the batch dimension
    is 1 and otherwise fails the assertion before anything is called. *)
Theorem detect_batch_size (E : Env) (self : MTCNN) (n c width height : Z)
  (px : list Q) :
  let image_01 := mkTensor [n; c; width; height] px in
  detect E self image_01
  = if (n =? 1)%Z then cascade E self image_01 []
    else (Raise (AssertionError
                   "The forward function only accepts a batch size of 1"), []).
Proof.
  cbv zeta. unfold detect, forward. unfold bind at 1.
  rewrite check_input_4d. destruct (n =? 1)%Z; reflexivity.
Qed.

(** C3, as the code has it.  An image with a zero (or negative) side is not
    rejected: the batch check passes, the pyramid is built and is empty, and
    no proposal run is made. *)
Theorem detect_degenerate_image (E : Env) (self : MTCNN) (c width height : Z)
  (px : list Q) :
  (width <= 0 \/ height <= 0)%Z ->
  0 < min_face_size self ->
  let image_01 := mkTensor [1; c; width; height]%Z px in
  check_input image_01 [] = (Ok image_01, [])
  /\ scale_pyramid self image_01 = Ok []
  /\ forall ev, In ev (snd (detect E self image_01)) -> is_scale_run ev = false.
Proof.
  intros Hdim Hpos image_01.
  assert (Hpyr : scale_pyramid self image_01 = Ok []).
  { unfold image_01. apply scale_pyramid_nonpos; [exact Hpos | lia]. }
  split; [apply check_input_4d|]. split; [exact Hpyr|].
  unfold detect, forward. unfold bind at 1.
  subst image_01. rewrite check_input_4d. cbn [Z.eqb Pos.eqb].
  rewrite (cascade_no_scales E self _ [] Hpyr). cbn [snd app].
  intros ev [<-|[]]. reflexivity.
Qed.

(** ** The proposal runs over the pyramid *)

(** The events a step appended, read off its log equation. *)
Ltac tail_of H :=
  match type of H with
  | _ = _ ++ ?evs => evs
  end.

Lemma check_input_log (image_01 : tensor) (log : list event) :
  snd (check_input image_01 log) = log.
Proof.
  unfold check_input. run_cascade.
  destruct (size0 _) as [b|e]; [|reflexivity].
  destruct (b =? 1)%Z; reflexivity.
Qed.

(** [run_first_stage] reads a 4-D image and two sizes, or raises at once. *)
Lemma run_first_stage_sizes (E : Env) (self : MTCNN) (image_01 : tensor)
  (scale threshold : Q) (log : list event) :
  (exists n c width height sw sh,
      image_01 = mkTensor [n; c; width; height] (data image_01)
      /\ ceil_mul width scale = Ok sw
      /\ ceil_mul height scale = Ok sh)
  \/ (exists e, run_first_stage E self image_01 scale threshold log
                = (Raise e, log)).
Proof.
  destruct (run_first_stage_shape E self image_01 scale threshold log)
    as [(n & c & w & h & Himg)|Hraise]; [|right; exact Hraise].
  destruct (ceil_mul w scale) as [sw|e] eqn:Hsw.
  - destruct (ceil_mul h scale) as [sh|e] eqn:Hsh.
    + left. exists n, c, w, h, sw, sh. repeat split; assumption.
    + right. exists e. rewrite Himg. unfold run_first_stage.
      cbn [shape skipn unpack2]. run_cascade. rewrite Hsw, Hsh. reflexivity.
  - right. exists e. rewrite Himg. unfold run_first_stage.
    cbn [shape skipn unpack2]. run_cascade. rewrite Hsw. reflexivity.
Qed.

Lemma run_first_stage_Ok (E : Env) (self : MTCNN) (image_01 : tensor)
  (scale threshold : Q) (log log' : list event) (r : option ndarray) :
  run_first_stage E self image_01 scale threshold log = (Ok r, log') ->
  exists evs, log' = log ++ evs
              /\ scale_run E self image_01 threshold scale r evs.
Proof.
  intros H.
  destruct (run_first_stage_sizes E self image_01 scale threshold log)
    as [(n & c & w & h & sw & sh & Himg & Hsw & Hsh)|(e & Hraise)];
    [|rewrite Hraise in H; discriminate H].
  rewrite Himg, (run_first_stage_run E self n c w h _ scale threshold sw sh
                   Hsw Hsh) in H.
  cbv zeta in H.
  destruct (index01 _) as [probs|e] eqn:Hidx; [|discriminate H].
  destruct (length _ =? 0)%nat eqn:Hlen.
  - injection H as <- <-. rewrite <- !app_assoc. eexists. split; [reflexivity|].
    exists n, c, w, h, sw, sh, probs. rewrite Himg. cbn [shape data].
    split; [reflexivity|]. split; [exact Hsw|]. split; [exact Hsh|].
    cbv zeta. rewrite Hidx. split; [reflexivity|].
    left. apply Nat.eqb_eq in Hlen. repeat split; [exact Hlen].
  - destruct (take _ _) as [kept|e] eqn:Hkept; [|discriminate H].
    injection H as <- <-. rewrite <- !app_assoc. eexists. split; [reflexivity|].
    exists n, c, w, h, sw, sh, probs. rewrite Himg. cbn [shape data].
    split; [reflexivity|]. split; [exact Hsw|]. split; [exact Hsh|].
    cbv zeta. rewrite Hidx. split; [reflexivity|].
    right. apply Nat.eqb_neq in Hlen. split; [exact Hlen|].
    split; [|reflexivity]. exists kept.
    split; [apply take_selects; exact Hkept | reflexivity].
Qed.

Lemma mapM_run_first_stage_Ok (E : Env) (self : MTCNN) (image_01 : tensor)
  (threshold : Q) (scales : list Q) :
  forall (log log' : list event) (rs : list (option ndarray)),
    mapM (fun s => run_first_stage E self image_01 s threshold) scales log
    = (Ok rs, log') ->
    exists runs, scale_runs E self image_01 threshold scales rs runs
                 /\ log' = log ++ concat runs.
Proof.
  induction scales as [|s scales IH]; intros log log' rs H; cbn [mapM] in H.
  - injection H as <- <-. exists []. split; [constructor|].
    cbn [concat]. rewrite app_nil_r. reflexivity.
  - apply bind_Ok in H. destruct H as (r & log1 & Hrun & H).
    apply bind_Ok in H. destruct H as (rs' & log2 & Hrest & H).
    injection H as <- <-.
    apply run_first_stage_Ok in Hrun. destruct Hrun as (evs & -> & Hone).
    apply IH in Hrest. destruct Hrest as (runs & Hruns & ->).
    exists (evs :: runs). split; [constructor; assumption|].
    cbn [concat]. rewrite app_assoc. reflexivity.
Qed.


Lemma scale_run_log (E : Env) (self : MTCNN) (image_01 : tensor)
  (threshold scale : Q) (r : option ndarray) (evs : list event) :
  scale_run E self image_01 threshold scale r evs ->
  forallb is_scale_run evs = true.
Proof.
  intros (n & c & w & h & sw & sh & probs & _ & _ & _ & _
          & [(_ & _ & ->)|(_ & _ & ->)]);
    reflexivity.
Qed.

Lemma scale_runs_log (E : Env) (self : MTCNN) (image_01 : tensor)
  (threshold : Q) (scales : list Q) (rs : list (option ndarray))
  (runs : list (list event)) :
  scale_runs E self image_01 threshold scales rs runs ->
  forallb is_scale_run (concat runs) = true.
Proof.
  induction 1 as [|s r evs ss rs runs Hone _ IH]; [reflexivity|].
  cbn [concat]. rewrite forallb_app, IH, (scale_run_log _ _ _ _ _ _ _ Hone).
  reflexivity.
Qed.



Lemma not_none_boxes (rs : list (option ndarray)) :
  concat (not_none rs) = flat_map boxes_of_run rs.
Proof.
  induction rs as [|[b|] rs IH]; cbn [not_none concat flat_map boxes_of_run].
  - reflexivity.
  - rewrite IH. reflexivity.
  - exact IH.
Qed.



(** ** The threshold filters *)

Lemma Qgtb_lt (x y : Q) : Qgtb x y = true <-> y < x.
Proof.
  unfold Qgtb. rewrite negb_true_iff. split; intros H.
  - apply Qnot_le_lt. intros Hle. apply Qle_bool_iff in Hle. congruence.
  - destruct (Qle_bool x y) eqn:Hb; [|reflexivity].
    apply Qle_bool_iff in Hb. exfalso. apply (Qlt_not_le _ _ H Hb).
Qed.

(** The indices [np.where] returns: those of the entries over the
    threshold. *)
Lemma where_gt_In (v : list Q) (threshold : Q) :
  forall i k,
    In k (where_gt v threshold i)
    <-> (i <= k)%nat
        /\ exists p, nth_error v (k - i) = Some p /\ threshold < p.
Proof.
  induction v as [|x v IH]; intros i k; cbn [where_gt].
  - split; [intros []|]. intros (_ & p & Hp & _).
    destruct (k - i)%nat; discriminate Hp.
  - assert (Hrest :
             In k (where_gt v threshold (S i))
             <-> (S i <= k)%nat
                 /\ exists p, nth_error (x :: v) (k - i) = Some p
                              /\ threshold < p).
    { rewrite IH. split; intros (Hle & p & Hp & Hlt); (split; [exact Hle|]);
        exists p; (split; [|exact Hlt]).
      - replace (k - i)%nat with (S (k - S i)) by lia. exact Hp.
      - replace (k - i)%nat with (S (k - S i)) in Hp by lia. exact Hp. }
    destruct (Qgtb x threshold) eqn:Hx.
    + cbn [In]. rewrite Hrest. apply Qgtb_lt in Hx. split.
      * intros [<-|(Hle & Hp)].
        -- split; [lia|]. exists x. rewrite Nat.sub_diag. split; [reflexivity|exact Hx].
        -- split; [lia | exact Hp].
      * intros (Hle & p & Hp & Hlt).
        destruct (Nat.eq_dec i k) as [->|Hne]; [left; reflexivity|right].
        split; [lia|]. exists p. split; assumption.
    + rewrite Hrest. split.
      * intros (Hle & Hp). split; [lia | exact Hp].
      * intros (Hle & p & Hp & Hlt).
        destruct (Nat.eq_dec i k) as [->|Hne].
        -- rewrite Nat.sub_diag in Hp. injection Hp as ->.
           apply Qgtb_lt in Hlt. congruence.
        -- split; [lia|]. exists p. split; assumption.
Qed.


Lemma where_gt_none (v : list Q) (threshold : Q) :
  Forall (fun p => p <= threshold) v -> forall i, where_gt v threshold i = [].
Proof.
  induction 1 as [|x v Hx _ IH]; intros i; cbn [where_gt]; [reflexivity|].
  destruct (Qgtb x threshold) eqn:Hb; [|apply IH].
  apply Qgtb_lt in Hb. exfalso. apply (Qlt_not_le _ _ Hb Hx).
Qed.

Lemma set_col_nth_error (j : nat) (a : ndarray) (v : list Q) (r : ndarray) :
  set_col j a v = Ok r ->
  forall i row x,
    nth_error a i = Some row -> nth_error v i = Some x ->
    nth_error r i = Some (firstn j row ++ x :: skipn (S j) row).
Proof.
  revert v r. induction a as [|row0 rest IH]; intros [|x0 xs] r H;
    cbn [set_col] in H; try discriminate H.
  - intros [|i] row x Hi; discriminate Hi.
  - unfold set_nth in H.
    destruct (j <? length row0)%nat; [|discriminate H].
    destruct (set_col j rest xs) as [rows|e] eqn:Hrest; [|discriminate H].
    injection H as <-. intros [|i] row x Hi Hx; cbn [nth_error] in *.
    + injection Hi as <-. injection Hx as <-. reflexivity.
    + eapply IH; eassumption.
Qed.

(** What both threshold filters do to the boxes: the rows whose face
    probability is over the threshold are kept, in order, with that
    probability written over column 4. *)
Lemma threshold_filter_rows (bounding_boxes probs : ndarray) (p1 : list Q)
  (threshold : Q) (kept probs_keep bb : ndarray) (scores : list Q) :
  let keep := where_gt p1 threshold 0 in
  col 1 probs = Ok p1 ->
  take bounding_boxes keep = Ok kept ->
  take probs keep = Ok probs_keep ->
  col 1 probs_keep = Ok scores ->
  set_col 4 kept scores = Ok bb ->
  forall i k,
    nth_error keep i = Some k ->
    exists box p,
      nth_error bounding_boxes k = Some box
      /\ nth_error p1 k = Some p
      /\ threshold < p
      /\ nth_error bb i = Some (firstn 4 box ++ p :: skipn 5 box).
Proof.
  intros keep Hp1 Hkept Hpk Hsc Hset i k Hi.
  destruct (take_nth_error _ _ _ Hkept i k Hi) as [Hrow Hsome].
  destruct (nth_error bounding_boxes k) as [box|] eqn:Hbox; [|contradiction].
  destruct (take_nth_error _ _ _ Hpk i k Hi) as [Hprow Hpsome].
  destruct (nth_error probs k) as [prow|] eqn:Hprobs; [|contradiction].
  destruct (col_nth_error 1 _ _ Hp1 k prow Hprobs) as (p & Hp & Hpk1).
  destruct (col_nth_error 1 _ _ Hsc i prow Hprow) as (p' & Hp' & Hsci).
  assert (p' = p) by congruence. subst p'.
  exists box, p. split; [reflexivity|]. split; [exact Hpk1|]. split.
  - assert (Hin : In k keep) by (eapply nth_error_In; exact Hi).
    apply where_gt_In in Hin. destruct Hin as (_ & q & Hq & Hlt).
    rewrite Nat.sub_0_r in Hq. congruence.
  - apply (set_col_nth_error _ _ _ _ Hset i box p Hrow Hsci).
Qed.

Lemma take_nil_keep (keep : list nat) :
  take [] keep = match keep with
                 | [] => Ok []
                 | _ :: _ => Raise IndexError
                 end.
Proof.
  destruct keep as [|[|k] ks]; reflexivity.
Qed.

Lemma take_IndexError (a : ndarray) (keep : list nat) (e : exn) :
  take a keep = Raise e -> e = IndexError.
Proof.
  induction keep as [|k ks IH]; cbn [take]; [discriminate|].
  destruct (nth_error a k); [|intros H; injection H as <-; reflexivity].
  destruct (take a ks) as [rows|e']; [discriminate|].
  intros H. injection H as <-. apply IH. reflexivity.
Qed.

Lemma set_col_row_length (j : nat) (a : ndarray) (v : list Q) (r : ndarray) :
  set_col j a v = Ok r ->
  forall i row, nth_error a i = Some row -> (j < length row)%nat.
Proof.
  revert v r. induction a as [|row0 rest IH]; intros [|x0 xs] r H;
    cbn [set_col] in H; try discriminate H.
  - intros [|i] row Hi; discriminate Hi.
  - unfold set_nth in H.
    destruct (j <? length row0)%nat eqn:Hj; [|discriminate H].
    destruct (set_col j rest xs) as [rows|e] eqn:Hrest; [|discriminate H].
    intros [|i] row Hi; cbn [nth_error] in Hi.
    + injection Hi as <-. apply Nat.ltb_lt. exact Hj.
    + eapply IH; eassumption.
Qed.

Lemma nth_error_of_length {A : Type} (l : list A) (i : nat) :
  (i < length l)%nat -> exists x, nth_error l i = Some x.
Proof.
  intros H. destruct (nth_error l i) as [x|] eqn:Hx; [exists x; reflexivity|].
  apply nth_error_None in Hx. lia.
Qed.

(** ** The stages, whatever their outcome *)

Section StageRuns.

Variable E : Env.
Variable self : MTCNN.

(** Lines 76-95. *)
Lemma stage1_run (image_01 : tensor) (scales : list Q) (log : list event) :
  stage1 E self image_01 scales log
  = match mapM (fun s => run_first_stage E self image_01 s
                           (item0 (thresholds self))) scales log with
    | (Raise e, log1) => (Raise e, log1)
    | (Ok rs, log1) =>
        let log2 := log1 ++ [Vstack (length (not_none rs))] in
        match not_none rs with
        | [] =>
            (Raise (ValueError "need at least one array to concatenate"), log2)
        | _ :: _ =>
            let merged := concat (not_none rs) in
            let thr := item0 (nms_thresholds self) in
            let log3 := log2 ++ [Nms (cols 0 5 merged) thr "union"] in
            match take merged (nms E (cols 0 5 merged) thr "union") with
            | Raise e => (Raise e, log3)
            | Ok kept =>
                let cal := calibrate_box E (cols 0 5 kept) (cols_from 5 kept) in
                let sq := convert_to_square E cal in
                (Ok (round_cols04 sq),
                 log3 ++ [CalibrateBox (cols 0 5 kept) (cols_from 5 kept);
                          ConvertToSquare cal; Round sq])
            end
        end
    end.
Proof.
  unfold stage1. unfold bind at 1.
  destruct (mapM _ scales log) as [[rs|e] log1]; [|reflexivity].
  run_cascade. unfold nms_default_mode.
  destruct (not_none rs) as [|r0 rest]; [reflexivity|].
  destruct (take _ _) as [kept|e]; [|reflexivity].
  cbv zeta. rewrite <- !app_assoc. reflexivity.
Qed.




(** Lines 146-151. *)
Lemma stage3_suppress_run (bounding_boxes offsets landmarks : ndarray)
  (log : list event) :
  stage3_suppress E self bounding_boxes offsets landmarks log
  = let cal := calibrate_box E bounding_boxes offsets in
    let thr := item2 (nms_thresholds self) in
    let keep := nms E cal thr "min" in
    (match take cal keep with
     | Raise e => Raise e
     | Ok boxes =>
         match take landmarks keep with
         | Raise e => Raise e
         | Ok points => Ok (boxes, points)
         end
     end,
     log ++ [CalibrateBox bounding_boxes offsets; Nms cal thr "min"]).
Proof.
  unfold stage3_suppress. run_cascade.
  destruct (take (calibrate_box _ _ _) _) as [kept|e];
    [|rewrite <- !app_assoc; reflexivity].
  destruct (take landmarks _) as [lk|e]; rewrite <- !app_assoc; reflexivity.
Qed.


(** Lines 122-151. *)
Lemma stage3_run (image_pil : pil_image) (bounding_boxes : ndarray)
  (log : list event) :
  stage3 E self image_pil bounding_boxes log
  = let img_boxes := get_image_boxes E bounding_boxes image_pil 48 in
    let log1 := log ++ [GetImageBoxes bounding_boxes 48] in
    if (length img_boxes =? 0)%nat then (Ok ([], []), log1)
    else
      match stage3_filter self bounding_boxes img_boxes log1 with
      | (Raise e, log2) => (Raise e, log2)
      | (Ok (fb, offs, raw), log2) =>
          match compute_landmarks fb raw with
          | Raise e => (Raise e, log2)
          | Ok points => stage3_suppress E self fb offs points log2
          end
      end.
Proof.
  unfold stage3, call_get_image_boxes.
  rewrite !bind_assoc, bind_emit, bind_ret. cbv zeta.
  destruct (length _ =? 0)%nat; [reflexivity|].
  unfold bind at 1.
  destruct (stage3_filter _ _ _ _) as [[[[fb offs] raw]|e] log2];
    [|reflexivity].
  rewrite bind_lift. destruct (compute_landmarks fb raw); reflexivity.
Qed.



(** After the stage-3 filter the landmark points can always be computed:
    every box that passed has its five columns, and there are as many
    landmark rows as boxes. *)
Lemma compute_landmarks_total (bounding_boxes : ndarray)
  (img_boxes : list tensor) (log log' : list event) (fb offs raw : ndarray) :
  stage3_filter self bounding_boxes img_boxes log
  = (Ok (fb, offs, raw), log') ->
  exists points, compute_landmarks fb raw = Ok points.
Proof.
  intros H. apply stage3_filter_Ok in H.
  destruct H as (p1 & kept & pk & scores & _ & Hkept & _ & _ & Hset
                 & _ & Hraw & _).
  assert (Hlen : length raw = length fb).
  { apply set_col_length in Hset. destruct Hset as [-> _].
    rewrite (take_length _ _ _ Hkept), (take_length _ _ _ Hraw). reflexivity. }
  assert (Hrows : forall row, In row fb -> (4 < length row)%nat).
  { clear - Hset. revert scores fb Hset.
    induction kept as [|row0 rest IH]; intros [|x xs] fb H;
      cbn [set_col] in H; try discriminate H.
    - injection H as <-. intros row [].
    - unfold set_nth in H.
      destruct (4 <? length row0)%nat eqn:Hj; [|discriminate H].
      destruct (set_col 4 rest xs) as [rows|e] eqn:Hrest; [|discriminate H].
      injection H as <-. intros row [<-|Hin].
      + apply Nat.ltb_lt in Hj.
        destruct row0 as [|a0 [|a1 [|a2 [|a3 [|a4 r]]]]];
          cbn [length] in Hj; try lia.
        cbn [app length]. lia.
      + eapply IH; eassumption. }
  clear - Hlen Hrows. unfold compute_landmarks.
  assert (Hcol : forall j, (j < 4)%nat ->
                           exists v, col j fb = Ok v /\ length v = length fb).
  { intros j Hj. clear Hlen. induction fb as [|row rest IH].
    - exists []. split; reflexivity.
    - destruct IH as (v & Hv & Hl); [intros r Hr; apply Hrows; right; exact Hr|].
      cbn [col]. destruct (nth_error row j) as [x|] eqn:Hx.
      + rewrite Hv. exists (x :: v). split; [reflexivity|].
        cbn [length]. f_equal. exact Hl.
      + apply nth_error_None in Hx.
        pose proof (Hrows row (or_introl eq_refl)). lia. }
  destruct (Hcol 2%nat ltac:(lia)) as (x2 & -> & L2).
  destruct (Hcol 0%nat ltac:(lia)) as (x0 & -> & L0).
  destruct (Hcol 3%nat ltac:(lia)) as (y3 & -> & L3).
  destruct (Hcol 1%nat ltac:(lia)) as (y1 & -> & L1).
  set (ws := map _ (combine x2 x0)). set (hs := map _ (combine y3 y1)).
  assert (Lw : length ws = length fb).
  { unfold ws. rewrite length_map, length_combine. lia. }
  assert (Lh : length hs = length fb).
  { unfold hs. rewrite length_map, length_combine. lia. }
  clearbody ws hs. clear - Hlen L0 L1 Lw Lh.
  revert x0 y1 ws hs raw Hlen L0 L1 Lw Lh.
  induction fb as [|b fb IH]; intros [|a x0] [|c y1] [|w ws] [|h hs] [|r raw];
    cbn [length]; intros; try lia.
  - exists []. reflexivity.
  - destruct (IH x0 y1 ws hs raw) as (pts & Hpts); try lia.
    cbn [landmark_rows]. rewrite Hpts. eexists. reflexivity.
Qed.

End StageRuns.

(** ** Row by row through the threshold filters *)

Section FilterRows.

Variable self : MTCNN.


(** Row [i] after the stage-3 filter (lines 133-137): the box, the face
    probability, the offsets and the landmarks of one and the same crop
    [k]. *)
Lemma stage3_filter_row (bounding_boxes : ndarray) (img_boxes : list tensor)
  (log log' : list event) (fb offs raw : ndarray) :
  stage3_filter self bounding_boxes img_boxes log
  = (Ok (fb, offs, raw), log') ->
  exists p1 : list Q,
    col 1 (snd (onet self img_boxes)) = Ok p1
    /\ length offs = length fb
    /\ length raw = length fb
    /\ forall i,
        (i < length fb)%nat ->
        exists k xmin ymin xmax ymax score rest p orow lrow,
          nth_error bounding_boxes k
          = Some (xmin :: ymin :: xmax :: ymax :: score :: rest)
          /\ nth_error p1 k = Some p
          /\ item2 (thresholds self) < p
          /\ nth_error fb i = Some (xmin :: ymin :: xmax :: ymax :: p :: rest)
          /\ nth_error (snd (fst (onet self img_boxes))) k = Some orow
          /\ nth_error offs i = Some orow
          /\ nth_error (fst (fst (onet self img_boxes))) k = Some lrow
          /\ nth_error raw i = Some lrow.
Proof.
  intros H. apply stage3_filter_Ok in H.
  destruct H as (p1 & kept & pk & scores & Hp1 & Hkept & Hpk & Hsc & Hset
                 & Hoffs & Hraw & _).
  assert (Hfb : length fb = length (where_gt p1 (item2 (thresholds self)) 0)).
  { apply set_col_length in Hset. destruct Hset as [-> _].
    apply (take_length _ _ _ Hkept). }
  exists p1. split; [exact Hp1|].
  split; [rewrite (take_length _ _ _ Hoffs); symmetry; exact Hfb|].
  split; [rewrite (take_length _ _ _ Hraw); symmetry; exact Hfb|].
  intros i Hi.
  destruct (nth_error_of_length (where_gt p1 (item2 (thresholds self)) 0) i
              ltac:(lia)) as (k & Hk).
  destruct (threshold_filter_rows _ _ _ _ _ _ _ _ Hp1 Hkept Hpk Hsc Hset i k Hk)
    as (box & p & Hbox & Hp & Hlt & Hrow).
  destruct (take_nth_error _ _ _ Hkept i k Hk) as [Hkrow _].
  rewrite Hbox in Hkrow.
  pose proof (set_col_row_length _ _ _ _ Hset i box Hkrow) as Hblen.
  destruct box as [|b0 [|b1 [|b2 [|b3 [|b4 brest]]]]];
    cbn [length] in Hblen; try lia.
  cbn [firstn skipn app] in Hrow.
  destruct (take_nth_error _ _ _ Hoffs i k Hk) as [Ho Hsome].
  destruct (nth_error (snd (fst (onet self img_boxes))) k) as [orow|] eqn:Hok;
    [|contradiction].
  destruct (take_nth_error _ _ _ Hraw i k Hk) as [Hl Hlsome].
  destruct (nth_error (fst (fst (onet self img_boxes))) k) as [lrow|] eqn:Hlk;
    [|contradiction].
  exists k, b0, b1, b2, b3, b4, brest, p, orow, lrow.
  repeat split; assumption.
Qed.

End FilterRows.

(** ** The order of the steps *)






(** ** The size of the resized image *)

(** The ints below [2^53] are binary64 numbers. *)
Lemma round64_Z (z : Z) :
  (0 <= z < 2 ^ 53)%Z -> round64 (inject_Z z) == inject_Z z.
Proof.
  intros [H0 H53].
  destruct (Z.eq_dec z 0) as [->|Hne]; [reflexivity|].
  assert (Hz : 0 < inject_Z z).
  { change 0 with (inject_Z 0). rewrite <- Zlt_Qlt. lia. }
  rewrite (round64_pos_eq _ Hz), (ulp_exponent_pos _ Hz).
  assert (Hlo : (0 <= floor_log2 (inject_Z z))%Z).
  { apply floor_log2_ge; [exact Hz|]. change (2 ^ 0) with (inject_Z 1).
    rewrite <- Zle_Qle. lia. }
  assert (Hhi : (floor_log2 (inject_Z z) < 53)%Z).
  { apply floor_log2_lt; [exact Hz|]. rewrite <- pow2_Z by lia.
    rewrite <- Zlt_Qlt. exact H53. }
  set (k := floor_log2 (inject_Z z)) in *.
  replace (Z.max (k - 52) (-1074)) with (- (52 - k))%Z by lia.
  set (d := (52 - k)%Z).
  assert (Hd : (0 <= d)%Z) by (unfold d; lia).
  assert (Hinv : 2 ^ (- d) * 2 ^ d == 1).
  { rewrite <- pow2_add. replace (- d + d)%Z with 0%Z by lia. reflexivity. }
  pose proof (pow2_pos (- d)) as Hp. pose proof (pow2_pos d) as Hq.
  assert (Hdiv : inject_Z z / 2 ^ (- d) == inject_Z (z * 2 ^ d)).
  { rewrite inject_Z_mult, pow2_Z by exact Hd.
    apply Qmult_inj_r with (2 ^ (- d)); [lra|].
    setoid_replace (inject_Z z * 2 ^ d * 2 ^ (- d))
      with (inject_Z z * (2 ^ (- d) * 2 ^ d)) by ring.
    rewrite Hinv. field. lra. }
  rewrite (rne_comp _ _ Hdiv), rne_Z.
  rewrite inject_Z_mult, pow2_Z by exact Hd.
  setoid_replace (inject_Z z * 2 ^ d * 2 ^ (- d))
    with (inject_Z z * (2 ^ (- d) * 2 ^ d)) by ring.
  rewrite Hinv. ring.
Qed.

(** [math.ceil(d * scale)] for a size below [2^53] and a scale that is not
    negative and at most [2^900]: the ceiling of the rounded product. *)
Lemma ceil_mul_rounded (d : Z) (scale : Q) :
  (0 <= d < 2 ^ 53)%Z -> 0 <= scale <= 2 ^ 900 ->
  ceil_mul d scale = Ok (Qceiling (round64 (inject_Z d * scale))).
Proof.
  intros Hd [Hs0 Hs]. unfold ceil_mul, of_int.
  pose proof (round64_Z d Hd) as Hl.
  assert (Hd0 : 0 <= inject_Z d).
  { change 0 with (inject_Z 0). rewrite <- Zle_Qle. lia. }
  assert (Hd53 : inject_Z d <= 2 ^ 53).
  { rewrite <- pow2_Z by lia. rewrite <- Zle_Qle. lia. }
  assert (E53 : 2 ^ 53 < 2 ^ 1024) by (apply Qlt_alt; vm_compute; reflexivity).
  rewrite fl_finite by (rewrite Hl, Qabs_pos; lra).
  cbn [fmul].
  assert (Hprod : round64 (inject_Z d) * scale == inject_Z d * scale)
    by (rewrite Hl; reflexivity).
  assert (Hfl : fl (round64 (inject_Z d) * scale) = fl (inject_Z d * scale))
    by (unfold fl; rewrite (round64_comp _ _ Hprod); reflexivity).
  rewrite Hfl.
  assert (Hp0 : 0 <= inject_Z d * scale) by nra.
  assert (Hp : inject_Z d * scale <= 2 ^ 53 * 2 ^ 900).
  { pose proof (pow2_pos 53). pose proof (pow2_pos 900).
    set (a := 2 ^ 53) in *. set (b := 2 ^ 900) in *. nra. }
  rewrite fl_finite; [reflexivity|].
  rewrite Qabs_pos by (apply round64_nonneg; exact Hp0).
  eapply Qle_lt_trans; [apply round64_le; [exact Hp0 | exact Hp]|].
  eapply Qle_lt_trans with (2 ^ 953);
    [apply Qle_bool_iff | apply Qlt_alt]; vm_compute; reflexivity.
Qed.

(** C9, as the code has it.  On a scale [s] that is not negative (and at
    most [2^900]), [run_first_stage] first resizes the image, whose last two
    dimensions [width] and [height] are below [2^53], to
    [ceil(fl(width * s))] by [ceil(fl(height * s))] in "bilinear" mode, where
    [fl] rounds the product to binary64 before the ceiling is taken, and next
    calls the proposal network on the normalized resized image. *)
Theorem first_stage_resize (E : Env) (self : MTCNN) (n c width height : Z)
  (px : list Q) (scale threshold : Q) (log : list event) :
  (0 <= width < 2 ^ 53)%Z -> (0 <= height < 2 ^ 53)%Z ->
  0 <= scale <= 2 ^ 900 ->
  let image_01 := mkTensor [n; c; width; height] px in
  let size := (Qceiling (round64 (inject_Z width * scale)),
               Qceiling (round64 (inject_Z height * scale))) in
  let resized := F_interpolate E image_01 size "bilinear" in
  exists rest,
    snd (run_first_stage E self image_01 scale threshold log)
    = log ++ [Interpolate size "bilinear"; PNet (normalize self resized)]
          ++ rest
    /\ shape (normalize self resized) = shape resized.
Proof.
  intros Hw Hh Hs. cbv zeta.
  rewrite (run_first_stage_run E self n c width height px scale threshold _ _
             (ceil_mul_rounded width scale Hw Hs)
             (ceil_mul_rounded height scale Hh Hs)).
  cbv zeta.
  destruct (index01 _) as [probs|e]; cbn [snd].
  - destruct (length _ =? 0)%nat; cbn [snd]; rewrite <- !app_assoc;
      eexists; (split; [cbn [app]; reflexivity | reflexivity]).
  - exists []. split; [reflexivity | reflexivity].
Qed.

Lemma first_stage_resize_witness :
  (0 <= 30 < 2 ^ 53)%Z
  /\ 0 <= round64 (12 / 20) <= 2 ^ 900
  /\ exists rest,
      snd (run_first_stage Stub.env Stub.mtcnn Stub.face_image
             (round64 (12 / 20)) 0.6 [])
      = [Interpolate (18, 18)%Z "bilinear";
         PNet (normalize Stub.mtcnn
                 (F_interpolate Stub.env Stub.face_image (18, 18)%Z
                    "bilinear"))] ++ rest.
Proof.
  assert (Hd : (0 <= 30 < 2 ^ 53)%Z) by (split; [discriminate | reflexivity]).
  assert (Hs : 0 <= round64 (12 / 20) <= 2 ^ 900).
  { split; apply Qle_bool_iff; vm_compute; reflexivity. }
  split; [exact Hd|]. split; [exact Hs|].
  destruct (first_stage_resize Stub.env Stub.mtcnn 1 1 30 30
              (repeat 1 (Z.to_nat (30 * 30))) (round64 (12 / 20)) 0.6 []
              Hd Hd Hs) as (rest & Hlog & _).
  exists rest. exact Hlog.
Defined.

(** C9, refuted as worded.  A 34 x 34 image under [min_face_size = 17.0]:
    the first scale of its pyramid is the float [12 / 17.0], and the
    proposal run on that scale resizes the image to 24 x 24, where
    [ceil(34 * s)] is 25: the exact product is a little over 24, the float
    product is 24.0. *)
Lemma resize_rounds_before_ceiling :
  hd_error
    (match scale_pyramid
             (mkMTCNN 17.0 (0.6, 0.7, 0.8) (0.7, 0.7, 0.7)
                Stub.pnet Stub.rnet Stub.onet) (Stub.uniform 34 34 1) with
     | Ok scales => scales
     | Raise _ => []
     end) = Some (round64 (12 / 17))
  /\ hd_error
       (snd (run_first_stage Stub.env
               (mkMTCNN 17.0 (0.6, 0.7, 0.8) (0.7, 0.7, 0.7)
                  Stub.pnet Stub.rnet Stub.onet) (Stub.uniform 34 34 1)
               (round64 (12 / 17)) 0.6 []))
     = Some (Interpolate (24, 24)%Z "bilinear")
  /\ Qceiling (inject_Z 34 * round64 (12 / 17)) = 25%Z.
Proof.
  split; [vm_compute; reflexivity|].
  split; vm_compute; reflexivity.
Qed.

(** C5.  Stage 3 (lines 122-151), whenever its crops are not empty and its
    threshold filter lets the boxes [fb], the offsets [offs] and the landmark
    rows [raw] through.  Row [i] of [fb] has the corners of a box
    [bounding_boxes[k]] as stage 3 received it, and [raw[i]] is the O-Net
    landmark row of that same crop [k]; the landmark points are computed
    from those rows, [x = xmin + (xmax - xmin + 1.0) * lx] for the first five
    entries and [y = ymin + (ymax - ymin + 1.0) * ly] for the next five, with
    the corners that were not calibrated yet.  Only then are the boxes [fb]
    calibrated, and the last call is the suppression, in "min" mode, of the
    calibrated boxes; the indices it keeps select the rows of both results,
    or the stage raises [IndexError] on an index past the last row. *)
Theorem landmarks_use_uncalibrated_boxes (E : Env) (self : MTCNN)
  (image_pil : pil_image) (bounding_boxes : ndarray) (log log2 : list event)
  (fb offs raw : ndarray) :
  let img_boxes := get_image_boxes E bounding_boxes image_pil 48 in
  length img_boxes <> 0%nat ->
  stage3_filter self bounding_boxes img_boxes
    (log ++ [GetImageBoxes bounding_boxes 48]) = (Ok (fb, offs, raw), log2) ->
  exists points : ndarray,
    compute_landmarks fb raw = Ok points
    /\ length points = length fb
    /\ length raw = length fb
    /\ (forall i,
           (i < length fb)%nat ->
           exists k xmin ymin xmax ymax score rest p row prow,
             nth_error bounding_boxes k
             = Some (xmin :: ymin :: xmax :: ymax :: score :: rest)
             /\ nth_error fb i
                = Some (xmin :: ymin :: xmax :: ymax :: p :: rest)
             /\ nth_error (fst (fst (onet self img_boxes))) k = Some row
             /\ nth_error raw i = Some row
             /\ nth_error points i = Some prow
             /\ forall j l,
                 nth_error row j = Some l ->
                 ((j < 5)%nat ->
                  nth_error prow j = Some (xmin + (xmax - xmin + 1.0) * l))
                 /\ ((5 <= j < 10)%nat ->
                     nth_error prow j
                     = Some (ymin + (ymax - ymin + 1.0) * l)))
    /\ let cal := calibrate_box E fb offs in
       let thr := item2 (nms_thresholds self) in
       let keep := nms E cal thr "min" in
       let run := stage3 E self image_pil bounding_boxes log in
       snd run = log2 ++ [CalibrateBox fb offs; Nms cal thr "min"]
       /\ ((exists boxes landmarks,
               fst run = Ok (boxes, landmarks)
               /\ selects keep cal boxes
               /\ selects keep points landmarks)
           \/ (fst run = Raise IndexError
               /\ (out_of_range keep cal \/ out_of_range keep points))).
Proof.
  intros img_boxes Hlen Hf.
  destruct (compute_landmarks_total _ _ _ _ _ _ _ _ Hf) as (points & Hpts).
  exists points. split; [exact Hpts|].
  destruct (compute_landmarks_Ok _ _ _ Hpts) as (Hplen & Hrlen & Hrows).
  split; [exact Hplen|]. split; [exact Hrlen|]. split.
  - destruct (stage3_filter_row _ _ _ _ _ _ _ _ Hf) as (p1 & _ & _ & _ & Hrow).
    intros i Hi.
    destruct (Hrow i Hi) as (k & xmin & ymin & xmax & ymax & score & rest & p
                             & orow & lrow & Hbox & _ & _ & Hfb & _ & _
                             & Hlk & Hraw).
    destruct (Hrows i _ _ Hfb Hraw)
      as (xmin' & ymin' & xmax' & ymax' & rest' & Heq & Hp).
    injection Heq as <- <- <- <- _.
    exists k, xmin, ymin, xmax, ymax, score, rest, p, lrow. eexists.
    split; [exact Hbox|]. split; [exact Hfb|]. split; [exact Hlk|].
    split; [exact Hraw|]. split; [exact Hp|].
    intros j l Hj. apply landmark_row_nth. exact Hj.
  - cbv zeta. rewrite stage3_run. cbv zeta. fold img_boxes.
    destruct (length img_boxes =? 0)%nat eqn:Hz;
      [apply Nat.eqb_eq in Hz; contradiction|].
    rewrite Hf, Hpts, stage3_suppress_run. cbv zeta. cbn [fst snd].
    split; [reflexivity|].
    destruct (take (calibrate_box E fb offs) _) as [boxes|e] eqn:Hb.
    + destruct (take points _) as [landmarks|e] eqn:Hl.
      * left. exists boxes, landmarks. split; [reflexivity|].
        split; apply take_selects; assumption.
      * right. apply take_Raise in Hl. destruct Hl as [-> Hout].
        split; [reflexivity | right; exact Hout].
    + right. apply take_Raise in Hb. destruct Hb as [-> Hout].
      split; [reflexivity | left; exact Hout].
Qed.

Lemma landmarks_use_uncalibrated_boxes_witness :
  length (get_image_boxes Stub.env [[2; 2; 16; 16; 0.9]; [3; 3; 23; 23; 0.9]]
            Stub.face_image 48) <> 0%nat
  /\ stage3_filter Stub.mtcnn [[2; 2; 16; 16; 0.9]; [3; 3; 23; 23; 0.9]]
       (get_image_boxes Stub.env [[2; 2; 16; 16; 0.9]; [3; 3; 23; 23; 0.9]]
          Stub.face_image 48)
       [GetImageBoxes [[2; 2; 16; 16; 0.9]; [3; 3; 23; 23; 0.9]] 48]
     = (Ok ([[2; 2; 16; 16; 0.9]; [3; 3; 23; 23; 0.9]],
            [[0.1; 0.1; -0.1; -0.1]; [0.1; 0.1; -0.1; -0.1]],
            (repeat [0.3; 0.7; 0.5; 0.3; 0.7; 0.3; 0.3; 0.5; 0.7; 0.7] 2)),
        [GetImageBoxes [[2; 2; 16; 16; 0.9]; [3; 3; 23; 23; 0.9]] 48;
         ONet 2; Where [0.9; 0.9] 0.8])
  /\ exists points : ndarray,
      compute_landmarks [[2; 2; 16; 16; 0.9]; [3; 3; 23; 23; 0.9]]
        (repeat [0.3; 0.7; 0.5; 0.3; 0.7; 0.3; 0.3; 0.5; 0.7; 0.7] 2) = Ok points
      /\ length points = 2%nat.
Proof.
  assert (Hlen : length (get_image_boxes Stub.env
                           [[2; 2; 16; 16; 0.9]; [3; 3; 23; 23; 0.9]]
                           Stub.face_image 48) <> 0%nat)
    by (vm_compute; discriminate).
  assert (Hf : stage3_filter Stub.mtcnn
                 [[2; 2; 16; 16; 0.9]; [3; 3; 23; 23; 0.9]]
                 (get_image_boxes Stub.env
                    [[2; 2; 16; 16; 0.9]; [3; 3; 23; 23; 0.9]]
                    Stub.face_image 48)
                 ([] ++ [GetImageBoxes
                           [[2; 2; 16; 16; 0.9]; [3; 3; 23; 23; 0.9]] 48])
               = (Ok ([[2; 2; 16; 16; 0.9]; [3; 3; 23; 23; 0.9]],
                      [[0.1; 0.1; -0.1; -0.1]; [0.1; 0.1; -0.1; -0.1]],
                      (repeat [0.3; 0.7; 0.5; 0.3; 0.7; 0.3; 0.3; 0.5; 0.7; 0.7] 2)),
                  [GetImageBoxes
                     [[2; 2; 16; 16; 0.9]; [3; 3; 23; 23; 0.9]] 48;
                   ONet 2; Where [0.9; 0.9] 0.8]))
    by (vm_compute; reflexivity).
  split; [exact Hlen|]. split; [exact Hf|].
  destruct (landmarks_use_uncalibrated_boxes Stub.env Stub.mtcnn
              Stub.face_image _ [] _ _ _ _ Hlen Hf)
    as (points & Hpts & Hplen & _).
  exists points. split; [exact Hpts | exact Hplen].
Defined.

(** C10.  On a 4-D image, (1) one proposal run whose two sizes can be
    computed and whose network output has a face-probability map: when no
    box is generated the run returns [None] after its three calls; otherwise
    its fourth and last call is a suppression of that scale's own boxes, at
    overlap threshold 0.5 in "union" mode, and the run returns the rows the
    suppression kept, or raises [IndexError] on an index past the last row.
    (2) When the runs over the scales have all returned, they were made one
    after another, before anything else, and the merge comes next: it counts
    the runs that returned boxes, the merged rows are those of the runs in
    order, a run that returned [None] giving none, and with no rows at all
    the merge raises. *)
Theorem per_scale_suppression (E : Env) (self : MTCNN) (n c width height : Z)
  (px : list Q) :
  let image_01 := mkTensor [n; c; width; height] px in
  let threshold := item0 (thresholds self) in
  (forall (scale : Q) (sw sh : Z) (probs : tensor) (log : list event),
      ceil_mul width scale = Ok sw ->
      ceil_mul height scale = Ok sh ->
      let size := (sw, sh) in
      let image := normalize self (F_interpolate E image_01 size "bilinear") in
      let outputs := pnet self image in
      index01 (snd outputs) = Ok probs ->
      let boxes := _generate_bboxes E probs (fst outputs) scale threshold in
      let keep := nms E (cols 0 5 boxes) 0.5 "union" in
      let run := run_first_stage E self image_01 scale threshold log in
      let pre := log ++ [Interpolate size "bilinear"; PNet image;
                         GenerateBboxes scale threshold] in
      (length boxes = 0%nat -> run = (Ok None, pre))
      /\ (length boxes <> 0%nat ->
          snd run = pre ++ [Nms (cols 0 5 boxes) 0.5 "union"]
          /\ ((exists kept, fst run = Ok (Some kept) /\ selects keep boxes kept)
              \/ (fst run = Raise IndexError /\ out_of_range keep boxes))))
  /\ (forall (scales : list Q) (log log1 : list event)
             (rs : list (option ndarray)),
         mapM (fun s => run_first_stage E self image_01 s threshold) scales log
         = (Ok rs, log1) ->
         exists runs : list (list event),
           scale_runs E self image_01 threshold scales rs runs
           /\ log1 = log ++ concat runs
           /\ exists rest,
               snd (stage1 E self image_01 scales log)
               = log1 ++ Vstack (length (not_none rs)) :: rest
               /\ (not_none rs = [] ->
                   rest = []
                   /\ fst (stage1 E self image_01 scales log)
                      = Raise (ValueError
                                 "need at least one array to concatenate"))
               /\ (not_none rs <> [] ->
                   exists rest',
                     rest = Nms (cols 0 5 (flat_map boxes_of_run rs))
                              (item0 (nms_thresholds self)) "union" :: rest')).
Proof.
  cbv zeta. split.
  - intros scale sw sh probs log Hsw Hsh Hidx.
    rewrite (run_first_stage_run E self n c width height px scale _ sw sh
               Hsw Hsh).
    cbv zeta. rewrite Hidx. split.
    + intros Hz. rewrite Hz. cbn [Nat.eqb]. rewrite <- !app_assoc. reflexivity.
    + intros Hnz. apply Nat.eqb_neq in Hnz. rewrite Hnz. cbn [fst snd].
      split; [rewrite <- !app_assoc; reflexivity|].
      destruct (take _ _) as [kept|e] eqn:Hkept.
      * left. exists kept. split; [reflexivity|]. apply take_selects.
        exact Hkept.
      * right. apply take_Raise in Hkept. destruct Hkept as [-> Hout].
        split; [reflexivity | exact Hout].
  - intros scales log log1 rs H.
    destruct (mapM_run_first_stage_Ok _ _ _ _ _ _ _ _ H) as (runs & Hruns & ->).
    exists runs. split; [exact Hruns|]. split; [reflexivity|].
    rewrite stage1_run, H. cbv zeta. rewrite <- not_none_boxes.
    set (log1 := log ++ concat runs).
    destruct (not_none rs) as [|r0 rest0] eqn:Hnn.
    + exists []. cbn [fst snd]. split; [reflexivity|].
      split; [intros _; split; reflexivity|]. intros Hne. contradiction.
    + destruct (take _ _) as [kept|e]; cbn [snd];
        rewrite <- ?app_assoc; eexists;
        (split; [cbn [app]; reflexivity|]);
        (split; [discriminate|]); intros _; eexists; reflexivity.
Qed.

Lemma per_scale_suppression_witness :
  mapM (fun s => run_first_stage Stub.env Stub.mtcnn Stub.face_image s
                   (item0 (thresholds Stub.mtcnn))) Stub.face_scales []
  = (Ok [Some [[0; 0; 18; 18; 0.9; 0.1; 0.1; -0.1; -0.1]];
         Some [[0; 0; 26; 26; 0.9; 0.1; 0.1; -0.1; -0.1]]],
     snd (mapM (fun s => run_first_stage Stub.env Stub.mtcnn Stub.face_image s
                           (item0 (thresholds Stub.mtcnn)))
            Stub.face_scales []))
  /\ exists rest,
      snd (stage1 Stub.env Stub.mtcnn Stub.face_image Stub.face_scales [])
      = snd (mapM (fun s => run_first_stage Stub.env Stub.mtcnn Stub.face_image
                              s (item0 (thresholds Stub.mtcnn)))
               Stub.face_scales [])
        ++ Vstack 2 :: rest.
Proof.
  assert (H : mapM (fun s => run_first_stage Stub.env Stub.mtcnn
                               Stub.face_image s
                               (item0 (thresholds Stub.mtcnn)))
                Stub.face_scales []
              = (Ok [Some [[0; 0; 18; 18; 0.9; 0.1; 0.1; -0.1; -0.1]];
                     Some [[0; 0; 26; 26; 0.9; 0.1; 0.1; -0.1; -0.1]]],
                 snd (mapM (fun s => run_first_stage Stub.env Stub.mtcnn
                                       Stub.face_image s
                                       (item0 (thresholds Stub.mtcnn)))
                        Stub.face_scales [])))
    by (vm_compute; reflexivity).
  split; [exact H|].
  destruct (proj2 (per_scale_suppression Stub.env Stub.mtcnn 1 1 30 30
                     (repeat 1 (Z.to_nat (30 * 30))))
              Stub.face_scales [] _ _ H)
    as (runs & _ & _ & rest & Hlog & _).
  exists rest. exact Hlog.
Defined.

(** ** Which rows travel together *)

Section Alignment.

Variable E : Env.
Variable self : MTCNN.




End Alignment.




(** C8.  [normalize] keeps the shape and maps every pixel [p] to
    [(p * 255 - 127.5) * 0.0078125], an increasing affine map that sends
    [0, 1] into [-1, 1]; it reads nothing of the object it is called on. *)
Theorem normalize_affine (self self' : MTCNN) (image_01 : tensor) (p : Q) :
  0 <= p <= 1 ->
  shape (normalize self image_01) = shape image_01
  /\ data (normalize self image_01)
     = map (fun x => ((x * 255) - 127.5) * 0.0078125) (data image_01)
  /\ normalize self' image_01 = normalize self image_01
  /\ normalize_pixel p == (255 # 128) * p - (255 # 256)
  /\ normalize_pixel 0 == - (255 # 256)
  /\ normalize_pixel 1 == 255 # 256
  /\ -1 <= normalize_pixel p <= 1.
Proof.
  intros [H0 H1].
  split; [reflexivity|]. split; [reflexivity|]. split; [reflexivity|].
  unfold normalize_pixel.
  split; [field|]. split; [reflexivity|]. split; [reflexivity|].
  split; lra.
Qed.

(** ** The theorems at work on concrete images *)

Lemma scale_pyramid_geometric_witness :
  2 ^ (-900) <= min_face_size Stub.mtcnn
  /\ (Z.min 30 30 < 2 ^ 63)%Z
  /\ exists K : nat,
      scale_pyramid Stub.mtcnn Stub.face_image
      = Ok (map (pyramid_scale
                   (round64 (min_detection_size / min_face_size Stub.mtcnn)))
              (seq 0 K))
      /\ (K <= 3)%nat.
Proof.
  assert (H1 : 2 ^ (-900) <= min_face_size Stub.mtcnn)
    by (apply Qle_bool_iff; vm_compute; reflexivity).
  assert (H2 : (Z.min 30 30 < 2 ^ 63)%Z) by reflexivity.
  split; [exact H1|]. split; [exact H2|].
  pose proof (scale_pyramid_geometric Stub.mtcnn 1 1 30 30
                (repeat 1 (Z.to_nat (30 * 30))) H1 H2) as H.
  cbv zeta in H. destruct H as (K & Hscales & _ & _ & _ & Hlog).
  exists K. split; [exact Hscales|].
  apply (Hlog 1%nat). apply Qle_bool_iff. vm_compute. reflexivity.
Defined.

(** C2, refuted as worded.  A 187 x 187 image under [min_face_size = 187.0]:
    [187 * (12 / 187) * 0.707^0] is 12, so that the least [k] of the claim
    is 0 and its pyramid is empty; in floats [12 / 187.0] is rounded up,
    the scaled side is [12.000000000000002], and the loop emits one
    scale. *)
Lemma pyramid_of_187_has_one_scale :
  scale_pyramid
    (mkMTCNN 187.0 (0.6, 0.7, 0.8) (0.7, 0.7, 0.7)
       Stub.pnet Stub.rnet Stub.onet) (Stub.uniform 187 187 1)
  = Ok [round64 (12 / 187)]
  /\ inject_Z 187 * (12 / 187.0) * 0.707 ^ 0 <= 12
  /\ 12 < round64 (inject_Z 187 * round64 (12 / 187)).
Proof.
  split; [vm_compute; reflexivity|].
  split; [apply Qle_bool_iff | apply Qlt_alt]; vm_compute; reflexivity.
Qed.

Lemma detect_degenerate_image_witness :
  (0 <= 0 \/ 5 <= 0)%Z
  /\ 0 < min_face_size Stub.mtcnn
  /\ scale_pyramid Stub.mtcnn (mkTensor [1; 3; 0; 5]%Z []) = Ok []
  /\ forall ev,
      In ev (snd (detect Stub.env Stub.mtcnn (mkTensor [1; 3; 0; 5]%Z []))) ->
      is_scale_run ev = false.
Proof.
  assert (Hdim : (0 <= 0 \/ 5 <= 0)%Z) by (left; reflexivity).
  assert (Hpos : 0 < min_face_size Stub.mtcnn) by reflexivity.
  split; [exact Hdim|]. split; [exact Hpos|].
  exact (proj2 (detect_degenerate_image Stub.env Stub.mtcnn 3 0 5 [] Hdim Hpos)).
Defined.

(** C3, refuted as worded.  A 0 x 5 image passes the only check made before
    the pyramid, the pyramid is built (empty), and the call fails later, in
    the merge of stage 1, with numpy's error. *)
Lemma zero_width_not_rejected_up_front :
  ~ rejected_up_front (mkTensor [1; 3; 0; 5]%Z [])
  /\ scale_pyramid Stub.mtcnn (mkTensor [1; 3; 0; 5]%Z []) = Ok []
  /\ detect Stub.env Stub.mtcnn (mkTensor [1; 3; 0; 5]%Z [])
     = (Raise (ValueError "need at least one array to concatenate"),
        [Vstack 0]).
Proof.
  split; [|split; vm_compute; reflexivity].
  intros (e & He). discriminate He.
Qed.



Lemma normalize_affine_witness :
  0 <= 1 # 2 <= 1 /\ -1 <= normalize_pixel (1 # 2) <= 1.
Proof.
  assert (H : 0 <= 1 # 2 <= 1) by (split; discriminate).
  split; [exact H|].
  apply (normalize_affine Stub.mtcnn Stub.mtcnn Stub.face_image (1 # 2) H).
Defined.

(** ** More on the scale pyramid *)

Lemma firstn_seq_le (k1 k2 : nat) :
  (k1 <= k2)%nat -> forall s, firstn k1 (seq s k2) = seq s k1.
Proof.
  revert k2. induction k1 as [|k1 IH]; intros [|k2] Hle s; cbn [firstn seq];
    try reflexivity; try lia.
  f_equal. apply IH. lia.
Qed.

Lemma min_length_at_nonneg (x : Q) (k : nat) :
  0 <= x -> 0 <= min_length_at x k.
Proof.
  intros Hx. induction k as [|k IH]; [exact Hx|].
  cbn [min_length_at]. apply round64_nonneg.
  pose proof factor_pos. nra.
Qed.

(** Rounding is monotone, and so is every turn of the loop. *)
Lemma min_length_at_mono (x y : Q) (k : nat) :
  0 <= x -> x <= y -> min_length_at x k <= min_length_at y k.
Proof.
  intros Hx Hxy. induction k as [|k IH]; [exact Hxy|].
  cbn [min_length_at]. pose proof factor_pos as Hf.
  pose proof (min_length_at_nonneg x k Hx) as H0.
  apply round64_le; nra.
Qed.

(** A pyramid that was returned, for a positive side and a positive finite
    [m]. *)
Lemma scale_pyramid_Ok_finite (self : MTCNN) (n c width height : Z)
  (px scales : list Q) (m : Q) :
  scale_pyramid self (mkTensor [n; c; width; height] px) = Ok scales ->
  fl (min_detection_size / min_face_size self) = Finite m ->
  0 < m ->
  (0 < Z.min height width)%Z ->
  ~ min_face_size self == 0 ->
  let x := round64 (round64 (inject_Z (Z.min height width)) * m) in
  exists K : nat,
    scales = map (pyramid_scale m) (seq 0 K)
    /\ (forall k, (k < K)%nat -> min_detection_size < min_length_at x k)
    /\ min_length_at x K <= min_detection_size.
Proof.
  intros H Hm Hmpos HL Hne x.
  assert (Hl : 0 <= inject_Z (Z.min height width)).
  { change 0 with (inject_Z 0). rewrite <- Zle_Qle. lia. }
  destruct (fl_nonneg _ Hl) as [Hr Hfl].
  destruct Hfl as [Hfl|Hfl].
  - assert (Hrm : 0 <= round64 (inject_Z (Z.min height width)) * m) by nra.
    destruct (fl_nonneg _ Hrm) as [Hx [Hfx|Hfx]].
    + assert (Hmul : fmul (of_int (Z.min height width)) (Finite m) = Finite x).
      { unfold of_int. rewrite Hfl. cbn [fmul]. exact Hfx. }
      destruct (scale_pyramid_finite self n c width height px m x Hne Hm Hmul)
        as (K & Heq & Hlt & Hend).
      rewrite Heq in H. injection H as <-. exists K.
      repeat split; assumption.
    + rewrite (scale_pyramid_shape4 self n c width height px Hne) in H.
      cbv zeta in H. rewrite Hm in H. unfold of_int in H.
      rewrite Hfl in H. cbn [fmul] in H. rewrite Hfx in H. discriminate H.
  - rewrite (scale_pyramid_shape4 self n c width height px Hne) in H.
    cbv zeta in H. rewrite Hm in H. unfold of_int in H.
    rewrite Hfl in H. cbn [fmul] in H.
    destruct (Qeq_bool m 0) eqn:Hz.
    + apply Qeq_bool_iff in Hz. rewrite Hz in Hmpos. discriminate Hmpos.
    + assert (H0 : Qle_bool 0 m = true) by (apply Qle_bool_iff; lra).
      rewrite H0 in H. cbn [negb xorb] in H. discriminate H.
Qed.

(** X7.  For one detector with a positive [min_face_size], the pyramid of an
    image is a prefix of the pyramid of any image whose smaller side is at
    least as long. *)
Theorem scale_pyramid_prefix (self : MTCNN) (n1 c1 w1 h1 n2 c2 w2 h2 : Z)
  (px1 px2 : list Q) (scales1 scales2 : list Q) :
  0 < min_face_size self ->
  (Z.min h1 w1 <= Z.min h2 w2)%Z ->
  scale_pyramid self (mkTensor [n1; c1; w1; h1] px1) = Ok scales1 ->
  scale_pyramid self (mkTensor [n2; c2; w2; h2] px2) = Ok scales2 ->
  scales1 = firstn (length scales1) scales2.
Proof.
  intros Hpos Hle H1 H2.
  destruct (Z.le_gt_cases (Z.min h1 w1) 0) as [HL|HL].
  { rewrite (scale_pyramid_nonpos self n1 c1 w1 h1 px1 Hpos HL) in H1.
    injection H1 as <-. reflexivity. }
  assert (Hne : ~ min_face_size self == 0)
    by (intro H0; rewrite H0 in Hpos; discriminate).
  assert (Hq : 0 <= min_detection_size / min_face_size self).
  { unfold min_detection_size. apply Qle_shift_div_l; [exact Hpos | lra]. }
  destruct (fl_nonneg _ Hq) as [Hm [Hfm|Hfm]].
  - set (m := round64 (min_detection_size / min_face_size self)) in *.
    destruct (Qlt_le_dec 0 m) as [Hmpos|Hm0].
    + destruct (scale_pyramid_Ok_finite self n1 c1 w1 h1 px1 scales1 m
                  H1 Hfm Hmpos ltac:(lia) Hne) as (K1 & -> & Hlt1 & Hend1).
      destruct (scale_pyramid_Ok_finite self n2 c2 w2 h2 px2 scales2 m
                  H2 Hfm Hmpos ltac:(lia) Hne) as (K2 & -> & Hlt2 & Hend2).
      assert (Hl1 : 0 <= inject_Z (Z.min h1 w1)).
      { change 0 with (inject_Z 0). rewrite <- Zle_Qle. lia. }
      assert (Hl12 : inject_Z (Z.min h1 w1) <= inject_Z (Z.min h2 w2))
        by (rewrite <- Zle_Qle; exact Hle).
      pose proof (round64_nonneg _ Hl1) as Hr1.
      pose proof (round64_le _ _ Hl1 Hl12) as Hr12.
      set (r1 := round64 (inject_Z (Z.min h1 w1))) in *.
      set (r2 := round64 (inject_Z (Z.min h2 w2))) in *.
      assert (Hx0 : 0 <= round64 (r1 * m)) by (apply round64_nonneg; nra).
      assert (Hx12 : round64 (r1 * m) <= round64 (r2 * m))
        by (apply round64_le; nra).
      assert (HK : (K1 <= K2)%nat).
      { destruct (Nat.le_gt_cases K1 K2) as [HK|HK]; [exact HK|exfalso].
        specialize (Hlt1 K2 HK).
        pose proof (min_length_at_mono _ _ K2 Hx0 Hx12) as Hmono.
        lra. }
      rewrite length_map, length_seq, firstn_map, (firstn_seq_le K1 K2 HK).
      reflexivity.
    + assert (Hz : m == 0) by lra.
      rewrite (scale_pyramid_shape4 self n1 c1 w1 h1 px1 Hne) in H1.
      cbv zeta in H1. rewrite Hfm in H1.
      destruct (of_int (Z.min h1 w1)) as [r|s|]; cbn [fmul] in H1.
      * assert (Hrm : r * m == 0) by (rewrite Hz; ring).
        unfold fl in H1. rewrite (round64_comp _ _ Hrm), round64_0 in H1.
        cbv zeta in H1.
        replace (Qle_bool (2 ^ 1024) (Qabs 0)) with false in H1
          by (vm_compute; reflexivity).
        rewrite scales_loop_exit in H1 by (unfold min_detection_size; lra).
        injection H1 as <-. reflexivity.
      * apply Qeq_bool_iff in Hz. rewrite Hz in H1.
        injection H1 as <-. reflexivity.
      * injection H1 as <-. reflexivity.
  - rewrite (scale_pyramid_shape4 self n1 c1 w1 h1 px1 Hne) in H1.
    cbv zeta in H1. rewrite Hfm in H1.
    destruct (fmul _ _) as [x|[|]|]; try discriminate H1;
      injection H1 as <-; reflexivity.
Qed.

Lemma scale_pyramid_prefix_witness :
  0 < min_face_size Stub.mtcnn
  /\ (Z.min 30 30 <= Z.min 64 48)%Z
  /\ exists scales2,
      scale_pyramid Stub.mtcnn (mkTensor [1; 3; 48; 64]%Z []) = Ok scales2
      /\ Stub.face_scales = firstn 2 scales2.
Proof.
  assert (H : 0 < min_face_size Stub.mtcnn) by reflexivity.
  assert (Hle : (Z.min 30 30 <= Z.min 64 48)%Z) by discriminate.
  assert (Hp : scale_pyramid Stub.mtcnn Stub.face_image
               = Ok Stub.face_scales) by (vm_compute; reflexivity).
  split; [exact H|]. split; [exact Hle|].
  eexists. split; [vm_compute; reflexivity|].
  apply (scale_pyramid_prefix Stub.mtcnn 1 1 30 30 1 3 48 64 _ [] _ _
           H Hle Hp).
  vm_compute. reflexivity.
Defined.

(** ** More on the input check *)

Lemma ndim_unsqueeze0 (t : tensor) : ndim (unsqueeze0 t) = (ndim t + 1)%Z.
Proof.
  unfold ndim, unsqueeze0. cbn [shape length]. lia.
Qed.

(** X1.  Whatever passes the check of lines 50-53 has batch dimension 1, is
    not 3-D, holds the pixels it came with, and passes the check again
    unchanged; the check logs no call. *)
Theorem check_input_checked (image_01 image : tensor) (log log' : list event) :
  check_input image_01 log = (Ok image, log') ->
  log' = log
  /\ size0 image = Ok 1%Z
  /\ ndim image <> 3%Z
  /\ data image = data image_01
  /\ check_input image log = (Ok image, log).
Proof.
  unfold check_input. run_cascade.
  destruct (ndim image_01 =? 3)%Z eqn:Hnd.
  - apply Z.eqb_eq in Hnd. cbn [size0 unsqueeze0 shape Z.eqb Pos.eqb].
    intros H. injection H as <- <-.
    rewrite ndim_unsqueeze0, Hnd. cbn [Z.add Pos.add Z.eqb Pos.eqb size0 shape].
    repeat split; try reflexivity. discriminate.
  - apply Z.eqb_neq in Hnd.
    destruct (size0 image_01) as [b|e] eqn:Hb; [|discriminate].
    destruct (b =? 1)%Z eqn:Hb1; [|discriminate].
    intros H. injection H as <- <-.
    apply Z.eqb_eq in Hb1. subst b.
    apply Z.eqb_neq in Hnd. rewrite Hnd, Hb. cbn [Z.eqb Pos.eqb].
    apply Z.eqb_neq in Hnd. repeat split; try reflexivity; assumption.
Qed.

Lemma check_input_checked_witness :
  check_input (mkTensor [3; 30; 30]%Z []) []
  = (Ok (mkTensor [1; 3; 30; 30]%Z []), [])
  /\ check_input (mkTensor [1; 3; 30; 30]%Z []) []
     = (Ok (mkTensor [1; 3; 30; 30]%Z []), []).
Proof.
  assert (H : check_input (mkTensor [3; 30; 30]%Z []) []
              = (Ok (mkTensor [1; 3; 30; 30]%Z []), [])) by reflexivity.
  split; [exact H|].
  apply (check_input_checked _ _ _ _ H).
Defined.

(** X2.  An input that is neither 3-D nor 4-D never reaches a collaborator:
    [detect] raises [IndexError] on a 0-D tensor, the batch assertion when
    the first dimension is not 1, and otherwise the [ValueError] of the
    unpacking of line 55. *)
Theorem detect_wrong_rank (E : Env) (self : MTCNN) (image_01 : tensor) :
  ndim image_01 <> 3%Z -> ndim image_01 <> 4%Z ->
  exists e,
    detect E self image_01 = (Raise e, [])
    /\ (shape image_01 = [] -> e = IndexError)
    /\ (forall d rest,
           shape image_01 = d :: rest -> d <> 1%Z ->
           e = AssertionError
                 "The forward function only accepts a batch size of 1")
    /\ (forall rest,
           shape image_01 = 1%Z :: rest -> exists msg, e = ValueError msg).
Proof.
  intros H3 H4. unfold detect, forward, check_input.
  apply Z.eqb_neq in H3. rewrite H3.
  destruct image_01 as [sh px]. unfold ndim in H4. cbn [shape] in *.
  destruct sh as [|d rest].
  - exists IndexError. split; [reflexivity|].
    split; [reflexivity|]. split; intros; discriminate.
  - run_cascade. cbn [size0 shape].
    destruct (d =? 1)%Z eqn:Hd.
    + apply Z.eqb_eq in Hd. subst d.
      unfold cascade. rewrite bind_lift. unfold scale_pyramid. cbn [shape].
      destruct rest as [|c [|w [|h [|x rest]]]]; cbn [skipn unpack2 length] in *.
      * eexists. split; [reflexivity|]. split; [discriminate|].
        split; [intros ? ? Heq Hne; injection Heq as <- _; contradiction|].
        intros; eexists; reflexivity.
      * eexists. split; [reflexivity|]. split; [discriminate|].
        split; [intros ? ? Heq Hne; injection Heq as <- _; contradiction|].
        intros; eexists; reflexivity.
      * apply Z.eqb_neq in H3. cbn in H3. contradiction.
      * cbn in H4. contradiction.
      * eexists. split; [reflexivity|]. split; [discriminate|].
        split; [intros ? ? Heq Hne; injection Heq as <- _; contradiction|].
        intros; eexists; reflexivity.
    + apply Z.eqb_neq in Hd. eexists. split; [reflexivity|].
      split; [discriminate|]. split; [reflexivity|].
      intros rest' Heq. injection Heq as -> _. contradiction.
Qed.

Lemma detect_wrong_rank_witness :
  ndim (mkTensor [1; 30]%Z []) <> 3%Z
  /\ ndim (mkTensor [1; 30]%Z []) <> 4%Z
  /\ exists e,
      detect Stub.env Stub.mtcnn (mkTensor [1; 30]%Z []) = (Raise e, [])
      /\ exists msg, e = ValueError msg.
Proof.
  assert (H3 : ndim (mkTensor [1; 30]%Z []) <> 3%Z) by discriminate.
  assert (H4 : ndim (mkTensor [1; 30]%Z []) <> 4%Z) by discriminate.
  split; [exact H3|]. split; [exact H4|].
  destruct (detect_wrong_rank Stub.env Stub.mtcnn _ H3 H4)
    as (e & Hrun & _ & _ & Hval).
  exists e. split; [exact Hrun|]. apply (Hval [30%Z]). reflexivity.
Defined.

(** X3.  With [min_face_size] equal to zero, a batch of one 4-D image makes
    [detect] raise [ZeroDivisionError] at line 67, before any call. *)
Theorem detect_zero_min_face_size (E : Env) (self : MTCNN)
  (c width height : Z) (px : list Q) :
  min_face_size self == 0 ->
  detect E self (mkTensor [1; c; width; height]%Z px)
  = (Raise ZeroDivisionError, []).
Proof.
  intros H0. unfold detect, forward. unfold bind at 1.
  rewrite check_input_4d. cbn [Z.eqb Pos.eqb].
  unfold cascade. rewrite bind_lift. unfold scale_pyramid.
  cbn [shape skipn unpack2].
  apply Qeq_bool_iff in H0. rewrite H0. reflexivity.
Qed.

Lemma detect_zero_min_face_size_witness :
  0 == 0
  /\ detect Stub.env
       (mkMTCNN 0 (0.6, 0.7, 0.8) (0.7, 0.7, 0.7)
          Stub.pnet Stub.rnet Stub.onet)
       (mkTensor [1; 1; 30; 30]%Z [])
     = (Raise ZeroDivisionError, []).
Proof.
  assert (H : 0 == 0) by reflexivity.
  split; [exact H|].
  apply (detect_zero_min_face_size Stub.env
           (mkMTCNN 0 (0.6, 0.7, 0.8) (0.7, 0.7, 0.7)
              Stub.pnet Stub.rnet Stub.onet) 1 30 30 [] H).
Defined.

(** ** More on the threshold filters *)





(** ** When a network rejects every crop *)

(** X10.  Stage 3 has no shortcut behind its threshold filter: when O-Net was
    given crops and rates none of them above [thresholds[2]],
    [calibrate_box] and [nms] (in "min" mode) are still called, on empty
    arrays; the stage returns the empty pair when [nms] then keeps no index,
    and raises [IndexError] when it keeps one. *)
Theorem stage3_all_rejected (E : Env) (self : MTCNN) (image_pil : pil_image)
  (bounding_boxes : ndarray) (log : list event) (p1 : list Q) :
  let img_boxes := get_image_boxes E bounding_boxes image_pil 48 in
  let cal := calibrate_box E [] [] in
  let keep := nms E cal (item2 (nms_thresholds self)) "min" in
  length img_boxes <> 0%nat ->
  col 1 (snd (onet self img_boxes)) = Ok p1 ->
  Forall (fun p => p <= item2 (thresholds self)) p1 ->
  stage3 E self image_pil bounding_boxes log
  = (match keep with
     | [] => Ok ([], [])
     | _ :: _ => Raise IndexError
     end,
     log ++ [GetImageBoxes bounding_boxes 48;
             ONet (length img_boxes);
             Where p1 (item2 (thresholds self));
             CalibrateBox [] [];
             Nms cal (item2 (nms_thresholds self)) "min"]).
Proof.
  intros img_boxes cal keep Hlen Hp1 Hall.
  unfold stage3, call_get_image_boxes.
  rewrite !bind_assoc, bind_emit, bind_ret.
  fold img_boxes. apply Nat.eqb_neq in Hlen. rewrite Hlen.
  unfold stage3_filter, stage3_suppress. run_cascade.
  rewrite Hp1, (where_gt_none _ _ Hall 0). cbn [take col set_col].
  cbn [compute_landmarks col combine map landmark_rows].
  fold cal. fold keep. rewrite <- !app_assoc. cbn [app].
  destruct keep as [|k ks] eqn:Hkeep.
  - reflexivity.
  - destruct (take cal (k :: ks)) as [rows|e] eqn:Ht.
    + rewrite take_nil_keep. reflexivity.
    + apply take_IndexError in Ht. subst e. reflexivity.
Qed.

Lemma stage3_all_rejected_witness :
  length (get_image_boxes Stub.env [[2; 2; 16; 16; 0.9]]
            (Stub.uniform 30 30 0) 48) <> 0%nat
  /\ col 1 (snd (Stub.onet
                   (get_image_boxes Stub.env [[2; 2; 16; 16; 0.9]]
                      (Stub.uniform 30 30 0) 48))) = Ok [0.1]
  /\ Forall (fun p => p <= item2 (thresholds Stub.mtcnn)) [0.1]
  /\ stage3 Stub.env Stub.mtcnn (Stub.uniform 30 30 0) [[2; 2; 16; 16; 0.9]] []
     = (Ok ([], []),
        [GetImageBoxes [[2; 2; 16; 16; 0.9]] 48; ONet 1; Where [0.1] 0.8;
         CalibrateBox [] []; Nms [] 0.7 "min"]).
Proof.
  assert (Hlen : length (get_image_boxes Stub.env [[2; 2; 16; 16; 0.9]]
                           (Stub.uniform 30 30 0) 48) <> 0%nat)
    by (vm_compute; discriminate).
  assert (Hp1 : col 1 (snd (Stub.onet
                              (get_image_boxes Stub.env [[2; 2; 16; 16; 0.9]]
                                 (Stub.uniform 30 30 0) 48))) = Ok [0.1])
    by (vm_compute; reflexivity).
  assert (Hall : Forall (fun p => p <= item2 (thresholds Stub.mtcnn)) [0.1])
    by (constructor; [discriminate | constructor]).
  split; [exact Hlen|]. split; [exact Hp1|]. split; [exact Hall|].
  exact (stage3_all_rejected Stub.env Stub.mtcnn (Stub.uniform 30 30 0)
           [[2; 2; 16; 16; 0.9]] [] [0.1] Hlen Hp1 Hall).
Defined.

(** X11.  Stage 2 has no shortcut either: when R-Net rates no crop above
    [thresholds[1]], [nms] is called on an empty array; if it keeps no
    index, [calibrate_box], [convert_to_square] and the rounding still run,
    on empty arrays, and their result is what stage 3 would receive; if it
    keeps an index, the stage raises [IndexError]. *)
Theorem stage2_all_rejected (E : Env) (self : MTCNN) (image_pil : pil_image)
  (bounding_boxes : ndarray) (log : list event) (p1 : list Q) :
  let img_boxes := get_image_boxes E bounding_boxes image_pil 24 in
  let keep := nms E [] (item1 (nms_thresholds self)) "union" in
  let cal := calibrate_box E [] [] in
  let sq := convert_to_square E cal in
  let pre := log ++ [GetImageBoxes bounding_boxes 24;
                     RNet (length img_boxes);
                     Where p1 (item1 (thresholds self));
                     Nms [] (item1 (nms_thresholds self)) "union"] in
  col 1 (snd (rnet self img_boxes)) = Ok p1 ->
  Forall (fun p => p <= item1 (thresholds self)) p1 ->
  stage2_crops E self image_pil bounding_boxes log
  = match keep with
    | [] => (Ok (round_cols04 sq),
             pre ++ [CalibrateBox [] []; ConvertToSquare cal; Round sq])
    | _ :: _ => (Raise IndexError, pre)
    end.
Proof.
  intros img_boxes keep cal sq pre Hp1 Hall.
  unfold stage2_crops, call_get_image_boxes.
  rewrite !bind_assoc, bind_emit, bind_ret.
  fold img_boxes.
  unfold stage2_filter, stage2_suppress. run_cascade.
  rewrite Hp1, (where_gt_none _ _ Hall 0). cbn [take col set_col].
  unfold nms_default_mode. fold keep. subst pre.
  destruct keep as [|k ks].
  - cbn [take]. fold cal. fold sq. rewrite <- !app_assoc. reflexivity.
  - rewrite take_nil_keep. rewrite <- ?app_assoc. reflexivity.
Qed.

Lemma stage2_all_rejected_witness :
  col 1 (snd (Stub.rnet
                (get_image_boxes Stub.env [[2; 2; 16; 16; 0.9]]
                   (Stub.uniform 30 30 0) 24)))
  = Ok [0.1]
  /\ Forall (fun p => p <= item1 (thresholds Stub.mtcnn)) [0.1]
  /\ stage2_crops Stub.env Stub.mtcnn (Stub.uniform 30 30 0)
       [[2; 2; 16; 16; 0.9]] []
     = (Ok [],
        [GetImageBoxes [[2; 2; 16; 16; 0.9]] 24; RNet 1;
         Where [0.1] 0.7; Nms [] 0.7 "union"; CalibrateBox [] [];
         ConvertToSquare []; Round []]).
Proof.
  assert (Hp1 : col 1 (snd (Stub.rnet
                              (get_image_boxes Stub.env [[2; 2; 16; 16; 0.9]]
                                 (Stub.uniform 30 30 0) 24))) = Ok [0.1])
    by (vm_compute; reflexivity).
  assert (Hall : Forall (fun p => p <= item1 (thresholds Stub.mtcnn)) [0.1])
    by (constructor; [discriminate | constructor]).
  split; [exact Hp1|]. split; [exact Hall|].
  exact (stage2_all_rejected Stub.env Stub.mtcnn (Stub.uniform 30 30 0)
           [[2; 2; 16; 16; 0.9]] [] [0.1] Hp1 Hall).
Defined.

(** ** When no scale proposes a box *)

Lemma scale_runs_none_steps (E : Env) (self : MTCNN) (image_01 : tensor)
  (threshold : Q) (scales : list Q) (rs : list (option ndarray))
  (runs : list (list event)) :
  scale_runs E self image_01 threshold scales rs runs ->
  Forall (fun r => r = None) rs ->
  map step_of (concat runs)
  = flat_map (fun _ => [Resize; Network; Threshold threshold]) scales.
Proof.
  induction 1 as [|s r evs ss rs runs Hone _ IH]; intros Hall;
    [reflexivity|].
  inversion Hall as [|r' rs' Hr Hrs]; subst.
  cbn [concat flat_map]. rewrite map_app, (IH Hrs). f_equal.
  destruct Hone as (n & c & w & h & sw & sh & probs & _ & _ & _ & _
                    & [(_ & _ & ->)|(_ & (kept & _ & Hsome) & _)]);
    [reflexivity | discriminate Hsome].
Qed.

Lemma not_none_all_none {A : Type} (rs : list (option A)) :
  Forall (fun r => r = None) rs -> not_none rs = [].
Proof.
  induction 1 as [|r rs Hr _ IH]; [reflexivity|].
  subst r. exact IH.
Qed.

(** X13.  When every proposal run of a batch of one 4-D image returns
    [None], [detect] has resized, run P-Net and thresholded once per scale,
    has suppressed nothing, and raises numpy's [ValueError] from the
    [np.vstack] of line 85: an image without any candidate is an error, not
    an empty result. *)
Theorem detect_no_proposals (E : Env) (self : MTCNN) (c width height : Z)
  (px : list Q) (scales : list Q) (rs : list (option ndarray))
  (log1 : list event) :
  let image_01 := mkTensor [1; c; width; height]%Z px in
  scale_pyramid self image_01 = Ok scales ->
  mapM (fun s => run_first_stage E self image_01 s (item0 (thresholds self)))
    scales [] = (Ok rs, log1) ->
  Forall (fun r => r = None) rs ->
  detect E self image_01
  = (Raise (ValueError "need at least one array to concatenate"),
     log1 ++ [Vstack 0])
  /\ map step_of log1
     = flat_map
         (fun _ => [Resize; Network; Threshold (item0 (thresholds self))])
         scales.
Proof.
  intros image_01 Hpyr Hruns Hall. split.
  - unfold detect, forward. unfold bind at 1.
    unfold image_01 at 1. rewrite check_input_4d. cbn [Z.eqb Pos.eqb].
    fold image_01. unfold cascade. rewrite bind_lift, Hpyr.
    unfold stage1. rewrite bind_assoc. unfold bind at 1. rewrite Hruns.
    rewrite (not_none_all_none _ Hall). reflexivity.
  - apply mapM_run_first_stage_Ok in Hruns.
    destruct Hruns as (runs & Hsr & ->). cbn [app].
    apply (scale_runs_none_steps _ _ _ _ _ _ _ Hsr Hall).
Qed.

Lemma detect_no_proposals_witness :
  scale_pyramid Stub.mtcnn (Stub.uniform 30 30 0) = Ok Stub.face_scales
  /\ fst (mapM (fun s => run_first_stage Stub.env Stub.mtcnn
                           (Stub.uniform 30 30 0) s
                           (item0 (thresholds Stub.mtcnn)))
            Stub.face_scales [])
     = Ok [None; None]
  /\ Forall (fun r : option ndarray => r = None) [None; None]
  /\ fst (detect Stub.env Stub.mtcnn (Stub.uniform 30 30 0))
     = Raise (ValueError "need at least one array to concatenate").
Proof.
  assert (Hp : scale_pyramid Stub.mtcnn (Stub.uniform 30 30 0)
               = Ok Stub.face_scales) by (vm_compute; reflexivity).
  assert (Hr : mapM (fun s => run_first_stage Stub.env Stub.mtcnn
                                (Stub.uniform 30 30 0) s
                                (item0 (thresholds Stub.mtcnn)))
                 Stub.face_scales []
               = (Ok [None; None],
                  snd (mapM (fun s => run_first_stage Stub.env Stub.mtcnn
                                        (Stub.uniform 30 30 0) s
                                        (item0 (thresholds Stub.mtcnn)))
                         Stub.face_scales [])))
    by (vm_compute; reflexivity).
  assert (Hall : Forall (fun r : option ndarray => r = None) [None; None])
    by (repeat constructor).
  split; [exact Hp|]. split; [rewrite Hr; reflexivity|].
  split; [exact Hall|].
  pose proof (proj1 (detect_no_proposals Stub.env Stub.mtcnn 1 30 30 _ _ _ _
                       Hp Hr Hall)) as Hd.
  apply (f_equal fst) in Hd. exact Hd.
Defined.

(** ** Where the rows come from *)

Lemma scale_runs_rows (E : Env) (self : MTCNN) (image_01 : tensor)
  (threshold : Q) (scales : list Q) (rs : list (option ndarray))
  (runs : list (list event)) :
  scale_runs E self image_01 threshold scales rs runs ->
  forall row,
    In row (concat (not_none rs)) ->
    exists s probs offsets,
      In s scales
      /\ In row (_generate_bboxes E probs offsets s threshold).
Proof.
  induction 1 as [|s r evs ss rs runs Hone _ IH]; intros row Hin;
    [destruct Hin|].
  destruct Hone as (n & c & w & h & sw & sh & probs & _ & _ & _ & _
                    & [(_ & -> & _)|(_ & (kept & Hkept & ->) & _)]).
  - cbn [not_none] in Hin. destruct (IH row Hin) as (s' & p & o & Hs & Hrow).
    exists s', p, o. split; [right; exact Hs | exact Hrow].
  - cbn [not_none concat] in Hin. apply in_app_or in Hin.
    destruct Hin as [Hin|Hin].
    + eexists s, probs, _. split; [left; reflexivity|].
      apply (selects_In _ _ _ Hkept row Hin).
    + destruct (IH row Hin) as (s' & p & o & Hs & Hrow).
      exists s', p, o. split; [right; exact Hs | exact Hrow].
Qed.

Lemma take_In (a : ndarray) (keep : list nat) (r : ndarray) :
  take a keep = Ok r -> forall row, In row r -> In row a.
Proof.
  intros H. apply selects_In with (keep := keep). apply take_selects. exact H.
Qed.

(** X15.  When stage 1 (lines 76-95) returns, the rows it calibrated, squared
    and rounded were each generated by [_generate_bboxes] on one of the
    scales it was given, at the threshold [thresholds[0]]; the suppressions
    only select rows, and the boxes and the offsets handed to
    [calibrate_box] are the two halves of those same rows. *)
Theorem stage1_rows_generated (E : Env) (self : MTCNN) (image_01 : tensor)
  (scales : list Q) (log log' : list event) (bb : ndarray) :
  stage1 E self image_01 scales log = (Ok bb, log') ->
  exists kept : ndarray,
    bb = round_cols04
           (convert_to_square E
              (calibrate_box E (cols 0 5 kept) (cols_from 5 kept)))
    /\ In (CalibrateBox (cols 0 5 kept) (cols_from 5 kept)) log'
    /\ forall row,
        In row kept ->
        exists s probs offsets,
          In s scales
          /\ In row (_generate_bboxes E probs offsets s
                       (item0 (thresholds self))).
Proof.
  intros H. apply stage1_Ok in H.
  destruct H as (rs & log1 & kept & Hruns & _ & Hkept & Hbb & Hlog).
  apply mapM_run_first_stage_Ok in Hruns. destruct Hruns as (runs & Hsr & _).
  exists kept. split; [exact Hbb|]. split.
  { rewrite Hlog. apply in_or_app. right. cbn [In]. auto. }
  intros row Hin. apply (take_In _ _ _ Hkept) in Hin.
  apply (scale_runs_rows _ _ _ _ _ _ _ Hsr row Hin).
Qed.

Lemma stage1_rows_generated_witness :
  fst (stage1 Stub.env Stub.mtcnn Stub.face_image Stub.face_scales [])
  = Ok [[2; 2; 16; 16; 0.9]; [3; 3; 23; 23; 0.9]]
  /\ exists kept : ndarray,
      [[2; 2; 16; 16; 0.9]; [3; 3; 23; 23; 0.9]]
      = round_cols04
          (convert_to_square Stub.env
             (calibrate_box Stub.env (cols 0 5 kept) (cols_from 5 kept))).
Proof.
  assert (H : stage1 Stub.env Stub.mtcnn Stub.face_image Stub.face_scales []
              = (Ok [[2; 2; 16; 16; 0.9]; [3; 3; 23; 23; 0.9]],
                 snd (stage1 Stub.env Stub.mtcnn Stub.face_image
                        Stub.face_scales [])))
    by (vm_compute; reflexivity).
  split; [rewrite H; reflexivity|].
  destruct (stage1_rows_generated _ _ _ _ _ _ _ H) as (kept & Hbb & _).
  exists kept. exact Hbb.
Defined.

(** X16.  When stage 3 (lines 122-151) returns past its guard, every
    landmark row it returns is an O-Net landmark row, of a crop whose face
    probability exceeded [thresholds[2]], reprojected with the corners of
    the box of the same index among the boxes the stage was given: the
    corners as stage 2 left them, before the O-Net calibration. *)
Theorem stage3_landmark_origin (E : Env) (self : MTCNN) (image_pil : pil_image)
  (bounding_boxes : ndarray) (log log' : list event)
  (boxes landmarks : ndarray) :
  let img_boxes := get_image_boxes E bounding_boxes image_pil 48 in
  stage3 E self image_pil bounding_boxes log = (Ok (boxes, landmarks), log') ->
  length img_boxes <> 0%nat ->
  exists p1 : list Q,
    col 1 (snd (onet self img_boxes)) = Ok p1
    /\ forall i lrow,
        nth_error landmarks i = Some lrow ->
        exists k xmin ymin xmax ymax score rest p raw,
          nth_error bounding_boxes k
          = Some (xmin :: ymin :: xmax :: ymax :: score :: rest)
          /\ nth_error p1 k = Some p
          /\ item2 (thresholds self) < p
          /\ nth_error (fst (fst (onet self img_boxes))) k = Some raw
          /\ lrow = landmark_row xmin ymin (xmax - xmin + 1.0)
                      (ymax - ymin + 1.0) raw.
Proof.
  intros img_boxes H Hlen. apply stage3_Ok in H. fold img_boxes in H.
  destruct H as [(Hz & _)|(_ & fb & offs & raw3 & points & log2
                           & Hf & Hpts & Hs)]; [contradiction|].
  apply stage3_filter_Ok in Hf.
  destruct Hf as (p1 & kept & pk & scores & Hp1 & Hkept & Hpk & Hsc & Hset
                  & _ & Hraw & _).
  apply stage3_suppress_Ok in Hs. destruct Hs as (_ & Hl & _).
  apply compute_landmarks_Ok in Hpts. destruct Hpts as (Hplen & Hrlen & Hrows).
  exists p1. split; [exact Hp1|].
  intros i lrow Hi.
  set (keep' := nms E (calibrate_box E fb offs) (item2 (nms_thresholds self))
                  "min") in *.
  assert (Hik : exists k', nth_error keep' i = Some k').
  { apply nth_error_of_length. rewrite <- (take_length _ _ _ Hl).
    apply nth_error_Some. rewrite Hi. discriminate. }
  destruct Hik as (k' & Hk').
  destruct (take_nth_error _ _ _ Hl i k' Hk') as [Hpt _].
  rewrite Hi in Hpt. symmetry in Hpt.
  assert (Hk'lt : (k' < length points)%nat).
  { apply nth_error_Some. rewrite Hpt. discriminate. }
  destruct (nth_error_of_length fb k' ltac:(lia)) as (frow & Hfrow).
  destruct (nth_error_of_length raw3 k' ltac:(lia)) as (raw & Hrawk).
  destruct (Hrows k' frow raw Hfrow Hrawk)
    as (xmin & ymin & xmax & ymax & rest & -> & Hprow).
  assert (Hkk : exists k, nth_error
                            (where_gt p1 (item2 (thresholds self)) 0) k'
                          = Some k).
  { apply nth_error_of_length. rewrite <- (take_length _ _ _ Hraw). lia. }
  destruct Hkk as (k & Hk).
  destruct (threshold_filter_rows _ _ _ _ _ _ _ _ Hp1 Hkept Hpk Hsc Hset k' k Hk)
    as (box & p & Hbox & Hp & Hlt & Hrow).
  destruct (take_nth_error _ _ _ Hkept k' k Hk) as [Hkrow _].
  rewrite Hbox in Hkrow.
  pose proof (set_col_row_length _ _ _ _ Hset k' box Hkrow) as Hblen.
  destruct box as [|b0 [|b1 [|b2 [|b3 [|b4 brest]]]]];
    cbn [length] in Hblen; try lia.
  rewrite Hfrow in Hrow. cbn [firstn skipn app] in Hrow.
  injection Hrow as -> -> -> -> _.
  exists k, b0, b1, b2, b3, b4, brest, p, raw.
  split; [exact Hbox|]. split; [exact Hp|]. split; [exact Hlt|]. split.
  - destruct (take_nth_error _ _ _ Hraw k' k Hk) as [Heq _]. congruence.
  - congruence.
Qed.

Lemma stage3_landmark_origin_witness :
  stage3 Stub.env Stub.mtcnn Stub.face_image
    [[2; 2; 16; 16; 0.9]; [3; 3; 23; 23; 0.9]] []
  = (Ok (Stub.face_boxes, Stub.face_landmarks),
     snd (stage3 Stub.env Stub.mtcnn Stub.face_image
            [[2; 2; 16; 16; 0.9]; [3; 3; 23; 23; 0.9]] []))
  /\ length (get_image_boxes Stub.env
               [[2; 2; 16; 16; 0.9]; [3; 3; 23; 23; 0.9]]
               Stub.face_image 48) <> 0%nat
  /\ exists p1 : list Q,
      col 1 (snd (Stub.onet
                    (get_image_boxes Stub.env
                       [[2; 2; 16; 16; 0.9]; [3; 3; 23; 23; 0.9]]
                       Stub.face_image 48))) = Ok p1.
Proof.
  assert (H : stage3 Stub.env Stub.mtcnn Stub.face_image
                [[2; 2; 16; 16; 0.9]; [3; 3; 23; 23; 0.9]] []
              = (Ok (Stub.face_boxes, Stub.face_landmarks),
                 snd (stage3 Stub.env Stub.mtcnn Stub.face_image
                        [[2; 2; 16; 16; 0.9]; [3; 3; 23; 23; 0.9]] [])))
    by (vm_compute; reflexivity).
  assert (Hlen : length (get_image_boxes Stub.env
                           [[2; 2; 16; 16; 0.9]; [3; 3; 23; 23; 0.9]]
                           Stub.face_image 48) <> 0%nat)
    by (vm_compute; discriminate).
  split; [exact H|]. split; [exact Hlen|].
  destruct (stage3_landmark_origin _ _ _ _ _ _ _ _ H Hlen) as (p1 & Hp1 & _).
  exists p1. exact Hp1.
Defined.

(** ** The conversion to a PIL image *)

(** Only a 4-D image has a pyramid. *)
Lemma scale_pyramid_4d (self : MTCNN) (image : tensor) (scales : list Q) :
  scale_pyramid self image = Ok scales -> ndim image = 4%Z.
Proof.
  unfold scale_pyramid, ndim. intros H.
  destruct (unpack2 (skipn 2 (shape image))) as [[w h]|e] eqn:Hu;
    [|discriminate H].
  apply unpack2_Ok in Hu. apply skipn2_pair in Hu.
  destruct Hu as (n & c & ->). reflexivity.
Qed.

(** Line 99 on a 4-D image. *)
Lemma stage2_4d (E : Env) (self : MTCNN) (image : tensor)
  (bounding_boxes : ndarray) (log : list event) :
  ndim image = 4%Z ->
  stage2 E self image bounding_boxes log
  = (Raise (ValueError "pic should be 2/3 dimensional"), log ++ [ToPilImage]).
Proof.
  intros H4. unfold stage2, call_to_pil_image.
  rewrite !bind_assoc, bind_emit, H4. reflexivity.
Qed.

(** X17.  No call of [detect] returns a result.  The image that reaches
    line 99 has passed the unpacking of line 55 and is 4-D, and
    [to_pil_image] raises on a tensor that is not 2-D or 3-D; so every call
    raises, at line 99 if not before (or stays in the loop of the
    pyramid). *)
Theorem detect_never_returns (E : Env) (self : MTCNN) (image_01 : tensor) :
  exists e, fst (detect E self image_01) = Raise e.
Proof.
  unfold detect, forward. unfold bind at 1.
  destruct (check_input image_01 []) as [[image|e] log0];
    [|exists e; reflexivity].
  unfold cascade. rewrite bind_lift.
  destruct (scale_pyramid self image) as [scales|e] eqn:Hp;
    [|exists e; reflexivity].
  apply scale_pyramid_4d in Hp.
  unfold bind at 1.
  destruct (stage1 E self image scales log0) as [[bb|e] log1];
    [|exists e; reflexivity].
  unfold bind at 1. rewrite (stage2_4d E self image bb log1 Hp).
  eexists. reflexivity.
Qed.

(** X18.  When stage 1 returns on a batch of one 4-D image, [detect] makes
    one more call, [to_pil_image] on the 4-D tensor, and raises its
    [ValueError]: stages 2 and 3 are never entered. *)
Theorem detect_stops_at_to_pil_image (E : Env) (self : MTCNN)
  (c width height : Z) (px : list Q) (scales : list Q) (bb : ndarray)
  (log1 : list event) :
  let image_01 := mkTensor [1; c; width; height]%Z px in
  scale_pyramid self image_01 = Ok scales ->
  stage1 E self image_01 scales [] = (Ok bb, log1) ->
  exists msg,
    detect E self image_01 = (Raise (ValueError msg), log1 ++ [ToPilImage]).
Proof.
  intros image_01 Hp H1. unfold detect, forward. unfold bind at 1.
  unfold image_01 at 1. rewrite check_input_4d. cbn [Z.eqb Pos.eqb].
  fold image_01. unfold cascade. rewrite bind_lift, Hp.
  unfold bind at 1. rewrite H1. unfold bind at 1.
  rewrite (stage2_4d E self image_01 bb log1 eq_refl).
  eexists. reflexivity.
Qed.

Lemma detect_stops_at_to_pil_image_witness :
  scale_pyramid Stub.mtcnn Stub.face_image = Ok Stub.face_scales
  /\ fst (stage1 Stub.env Stub.mtcnn Stub.face_image Stub.face_scales [])
     = Ok [[2; 2; 16; 16; 0.9]; [3; 3; 23; 23; 0.9]]
  /\ exists msg,
      fst (detect Stub.env Stub.mtcnn Stub.face_image)
      = Raise (ValueError msg).
Proof.
  assert (Hp : scale_pyramid Stub.mtcnn Stub.face_image = Ok Stub.face_scales)
    by (vm_compute; reflexivity).
  assert (H1 : stage1 Stub.env Stub.mtcnn Stub.face_image Stub.face_scales []
               = (Ok [[2; 2; 16; 16; 0.9]; [3; 3; 23; 23; 0.9]],
                  snd (stage1 Stub.env Stub.mtcnn Stub.face_image
                         Stub.face_scales [])))
    by (vm_compute; reflexivity).
  split; [exact Hp|]. split; [rewrite H1; reflexivity|].
  destruct (detect_stops_at_to_pil_image Stub.env Stub.mtcnn 1 30 30 _ _ _ _
              Hp H1) as (msg & Hd).
  exists msg. exact (f_equal fst Hd).
Defined.


